(** * pyLBM.geometry: box parsing, labels, domain decomposition, elements

    A shallow embedding of [pyLBM/geometry.py] (functions [get_box],
    [Geometry.__init__], [Geometry.add_elem], [Geometry.list_of_labels])
    and the properties of the geometry specification checked against it.

    Conventions of the embedding
    - A Python exception is a constructor of [PyExc]; a statement that can
      raise returns [Res A].
    - [log.error] is the [error] method of the logger returned by
      [setLogger]: it records the message and returns (the protocol of
      Python's [logging]); the messages and the creation of the process
      topology are collected in a trace of [Event]s, so a computation of the
      constructor has type [M A = list Event * Res A].
    - [dtype='f8'] is IEEE-754 binary64, here Rocq's primitive [float].
    - The values stored under the keys of the dictionaries have the types of
      [proto_box]: an axis interval is a list of ints or floats, a label is
      [None], an int, a string or a list of ints. *)

From Stdlib Require Import ZArith Floats Sorted.
From stdpp Require Import list strings sorting pretty.

Local Open Scope Z_scope.
Local Open Scope list_scope.

(** ** Python results, exceptions and the logging trace *)

Inductive PyExc :=
| KeyError
| IndexError
| UnboundLocalError
| AttributeError
| ValueError
| OverflowError.

Inductive Res (A : Type) :=
| Ok (a : A)
| Raise (e : PyExc).
Arguments Ok {A} a.
Arguments Raise {A} e.

#[global] Instance Res_ret : MRet Res := λ A a, Ok a.
#[global] Instance Res_bind : MBind Res := λ A B k r,
  match r with
  | Ok a => k a
  | Raise e => Raise e
  end.

(** What the constructor does that is visible outside its return value. *)
Inductive Event :=
| LogError (msg : string)
| NewInterface (dim : nat) (period : list bool).

Definition M (A : Type) : Type := list Event * Res A.

#[global] Instance M_ret : MRet M := λ A a, ([], Ok a).
#[global] Instance M_bind : MBind M := λ A B k m,
  match m with
  | (tr, Ok a) => let '(tr', r) := k a in (tr ++ tr', r)
  | (tr, Raise e) => (tr, Raise e)
  end.

Definition raise {A} (e : PyExc) : M A := ([], Raise e).
Definition emit (ev : Event) : M unit := ([ev], Ok tt).
Definition lift {A} (r : Res A) : M A := ([], r).

(** [try: m except KeyError: h] *)
Definition try_except_KeyError {A} (m : M A) (h : M A) : M A :=
  match m with
  | (tr, Raise KeyError) => let '(tr', r) := h in (tr ++ tr', r)
  | _ => m
  end.

(** [for i in xrange(n): s = body(i, s)] where the body may raise. *)
Fixpoint for_range_from {St} (start n : nat) (body : nat → St → Res St) (s : St) : Res St :=
  match n with
  | O => Ok s
  | S n' => s' ← body start s; for_range_from (S start) n' body s'
  end.

Definition for_xrange {St} (n : nat) (body : nat → St → Res St) (s : St) : Res St :=
  for_range_from 0 n body s.

(** [l[i]] and [l[i] = v] on a Python list, [i >= 0]. *)
Definition getitem {A} (l : list A) (i : nat) : Res A :=
  match l !! i with
  | Some v => Ok v
  | None => Raise IndexError
  end.

Definition setitem {A} (l : list A) (i : nat) (v : A) : Res (list A) :=
  if decide (i < length l)%nat then Ok (<[i:=v]> l) else Raise IndexError.

(** [d[key]] on a dictionary whose key may be absent. *)
Definition dict_getitem {A} (entry : option A) : Res A :=
  match entry with
  | Some v => Ok v
  | None => Raise KeyError
  end.

(** [d.get(key, dflt)] *)
Definition dict_get {A} (entry : option A) (dflt : A) : A :=
  match entry with
  | Some v => v
  | None => dflt
  end.

(** ** numpy arrays *)

(** The scalar type of an array and its arithmetic. [of_int] is the
    conversion numpy applies to an integer operand of a mixed operation. *)
Class Dtype (F : Type) := {
  fadd : F → F → F;
  fsub : F → F → F;
  fmul : F → F → F;
  fdiv : F → F → F;
  of_int : Z → F
}.

(** Nearest binary64 value of an integer (round to nearest, ties to even). *)
Definition Z2f8 (z : Z) : float := SF2Prim (binary_normalize prec emax z 0 false).

(** [dtype='f8']: the arithmetic the program runs on. *)
#[global] Instance f8 : Dtype float := {|
  fadd := PrimFloat.add;
  fsub := PrimFloat.sub;
  fmul := PrimFloat.mul;
  fdiv := PrimFloat.div;
  of_int := Z2f8
|}.

(** A binary64 value that is neither an infinity nor a NaN. *)
Definition is_finite64 (x : float) : bool :=
  match Prim2SF x with
  | S754_zero _ | S754_finite _ _ _ => true
  | _ => false
  end.

(** A two-dimensional array, stored by rows; every row of an array built
    by [np_asarray_f8] has the same length. *)
Abbreviation ndarray F := (list (list F)) (only parsing).

Section Numpy.
Context {F : Type} `{Dtype F}.

(** An elementwise binary operation on one-dimensional arrays, with
    numpy's broadcasting of a length-one operand. *)
Definition ufunc2 (op : F → F → F) (a b : list F) : Res (list F) :=
  if decide (length a = length b) then Ok (zip_with op a b)
  else match a, b with
       | [x], _ => Ok (map (op x) b)
       | _, [y] => Ok (map (λ x, op x y) a)
       | _, _ => Raise ValueError
       end.

(** [a[:, j]] *)
Definition getcol (a : ndarray F) (j : nat) : Res (list F) :=
  mapM (M := Res) (λ row, getitem row j) a.

(** [a[:, j] = v] *)
Definition setcol (a : ndarray F) (j : nat) (v : list F) : Res (ndarray F) :=
  _ ← getcol a j;
  if decide (length v = length a) then Ok (zip_with (λ row x, <[j:=x]> row) a v)
  else match v with
       | [x] => Ok (map (λ row, <[j:=x]> row) a)
       | _ => Raise ValueError
       end.

(** An integer array as an operand of a floating-point operation. *)
Definition astype (a : list Z) : list F := map of_int a.

(** Lines 137-140 of [Geometry.__init__]:
<<
    t = (self.bounds[:, 1] - self.bounds[:, 0])/self.interface.split
    coords = self.interface.get_coords()
    self.bounds[:, 1] = self.bounds[:, 0] + t*(coords + 1)
    self.bounds[:, 0] = self.bounds[:, 0] + t*coords
>>
    [bounds] is the array being updated in place; each read of a column
    sees the assignments made before it. *)
Definition split_bounds (bounds : ndarray F) (split coords : list Z) : Res (ndarray F) :=
  hi ← getcol bounds 1;
  lo ← getcol bounds 0;
  width ← ufunc2 fsub hi lo;
  t ← ufunc2 fdiv width (astype split);
  lo1 ← getcol bounds 0;
  off1 ← ufunc2 fmul t (astype (map (λ c, c + 1) coords));
  new_hi ← ufunc2 fadd lo1 off1;
  bounds1 ← setcol bounds 1 new_hi;
  lo2 ← getcol bounds1 0;
  off0 ← ufunc2 fmul t (astype coords);
  new_lo ← ufunc2 fadd lo2 off0;
  setcol bounds1 0 new_lo.
End Numpy.

(** [np.unique]: the sorted array of the distinct values of [l]. After the
    sort, an entry is kept when it differs from the entry before it. *)
Fixpoint keep_changes (prev : Z) (l : list Z) : list Z :=
  match l with
  | [] => []
  | y :: l' => if decide (y = prev) then keep_changes prev l' else y :: keep_changes y l'
  end.

Definition np_unique (l : list Z) : list Z :=
  match merge_sort Z.le l with
  | [] => []
  | x :: l' => x :: keep_changes x l'
  end.

(** [np.union1d(a, b)]: the unique values of the concatenation. *)
Definition np_union1d (a b : list Z) : list Z := np_unique (a ++ b).

(** ** The geometry dictionary *)

(** A number written in an interval: a Python [int] or [float]. *)
Inductive PyNum :=
| PyInt (z : Z)
| PyFloat (f : float).

Definition to_f8 (n : PyNum) : float :=
  match n with
  | PyInt z => Z2f8 z
  | PyFloat f => f
  end.

(** The conversion of a Python int to a C double raises [OverflowError]
    when the int is out of the range of binary64, that is when the nearest
    binary64 value would be an infinity; a float is stored as it is. *)
Definition fits_f8 (n : PyNum) : bool :=
  match n with
  | PyInt z => is_finite64 (Z2f8 z)
  | PyFloat _ => true
  end.

(** [np.asarray(bounds, dtype='f8')] on a list of lists of numbers: the rows
    must have one length, otherwise numpy raises [ValueError]; the entries
    are then converted one by one, and an int out of the range of binary64
    raises [OverflowError]. No other check is made: neither the number of
    entries of a row nor their order. *)
Definition np_asarray_f8 (rows : list (list PyNum)) : Res (ndarray float) :=
  match rows with
  | [] => Ok []
  | r :: rs =>
      if forallb (λ r', Nat.eqb (length r') (length r)) rs
      then if forallb (forallb fits_f8) rows
           then Ok (map (map to_f8) rows)
           else Raise OverflowError
      else Raise ValueError
  end.

(** The value under the key ['label']. [LabInt z] is an object of type
    [int]; an integer label beyond the machine range is a [long], which is
    not an [int], and is not a value of this type. *)
Inductive LabelVal :=
| LabNone
| LabInt (z : Z)
| LabStr (s : string)
| LabList (l : list Z).

(** A geometric element as the geometry sees it (module [elements]): the
    fluid/solid flag and the labels of its edges. *)
Record Element := {
  isfluid : bool;
  label : list Z
}.

(** The object built by [Interface(dim, period, comm)] (module [interface]):
    the number of processes along each axis, the coordinates of this
    process, and [cartcomm.Shift(i, 1)], the ranks of the neighbours of this
    process below and above it along axis [i]. *)
Record Interface := {
  split : list Z;
  get_coords : list Z;
  cartcomm_Shift : nat → Z * Z
}.

(** The dictionary under the key ['box']. A field is [None] when the key is
    absent; for ['y'] and ['z'] also when its value is [None], which
    [box.get(key, None)] does not tell apart. *)
Record Box := {
  key_x : option (list PyNum);
  key_y : option (list PyNum);
  key_z : option (list PyNum);
  key_label : option LabelVal
}.

Record Dico (Comm : Type) := {
  key_box : option Box;
  key_elements : option (list Element);
  key_comm : option Comm
}.
Arguments key_box {Comm} _.
Arguments key_elements {Comm} _.
Arguments key_comm {Comm} _.

(** The attributes of a [Geometry] instance. *)
Record Geometry := {
  dim : nat;
  globalbounds : ndarray float;
  bounds : ndarray float;
  box_label : list Z;
  list_elem : list Element;
  interface : Interface
}.

(** The local variables of [get_box] at its [return]: unbound until the
    assignment that defines them has run. *)
Record BoxLocals := {
  loc_dim : option nat;
  loc_bounds : option (list (list PyNum))
}.

Definition unbound : BoxLocals := {| loc_dim := None; loc_bounds := None |}.

Definition load {A} (v : option A) : M A :=
  match v with
  | Some a => mret a
  | None => raise UnboundLocalError
  end.

(** Reading an instance attribute that was never assigned. *)
Definition getattr {A} (v : option A) : Res A :=
  match v with
  | Some a => Ok a
  | None => Raise AttributeError
  end.

(** The messages passed to [log.error]. *)
Definition msg_no_box : string :=
  "'box' key not found in the geometry definition. Check the input dictionnary.".
Definition msg_no_x : string :=
  "'x' interval not found in the box definition of the geometry.".
Definition msg_label_size : string :=
  "The list label of the box has the wrong size (must be 2*dim)".
Definition msg_label_type : string :=
  "The labels of the box must be an integer or a list".

(** The list [bounds] that [get_box] builds when the key ['x'] is there: the
    interval of ['x'], then that of ['y'] if it is given, then that of ['z']
    if ['y'] and ['z'] are given. *)
Definition declared_bounds (box : Box) : option (list (list PyNum)) :=
  match key_x box with
  | None => None
  | Some boxx =>
      Some (boxx :: match key_y box with
                    | None => []
                    | Some boxy => boxy :: match key_z box with
                                           | None => []
                                           | Some boxz => [boxz]
                                           end
                    end)
  end.

Definition get_box {Comm} (dico : Dico Comm) : M (nat * ndarray float) :=
  locals ← try_except_KeyError
    (box ← lift (dict_getitem (key_box dico));
     try_except_KeyError
       (boxx ← lift (dict_getitem (key_x box));
        let bounds := [boxx] in
        let dim := 1%nat in
        match key_y box with
        | Some boxy =>
            let bounds := bounds ++ [boxy] in
            let dim := (dim + 1)%nat in
            match key_z box with
            | Some boxz =>
                let bounds := bounds ++ [boxz] in
                let dim := (dim + 1)%nat in
                mret {| loc_dim := Some dim; loc_bounds := Some bounds |}
            | None => mret {| loc_dim := Some dim; loc_bounds := Some bounds |}
            end
        | None => mret {| loc_dim := Some dim; loc_bounds := Some bounds |}
        end)
       (emit (LogError msg_no_x);;
        mret unbound))
    (emit (LogError msg_no_box);;
     mret unbound);
  dim ← load (loc_dim locals);
  bounds ← load (loc_bounds locals);
  arr ← lift (np_asarray_f8 bounds);
  mret (dim, arr).

(** Lines 117-125: the attribute [self.box_label] after the label of the
    dictionary has been read; [None] when no branch assigned it. *)
Definition initial_box_label (dim : nat) (dummylab : LabelVal) : M (option (list Z)) :=
  match dummylab with
  | LabInt z => mret (Some (replicate (2 * dim) z))
  | LabList l =>
      (if decide (length l ≠ (2 * dim)%nat)
       then emit (LogError msg_label_size)
       else mret ());;
      mret (Some l)
  | _ =>
      emit (LogError msg_label_type);;
      mret None
  end.

(** Lines 127-130: the periodicity of each axis. [periodicity_step] is the
    body of the loop: it reads the attribute [self.box_label] twice, compares
    ([a == b == -1] is [a == b and b == -1]) and marks the axis. *)
Definition periodicity_step (box_label : option (list Z)) (i : nat) (period : list bool)
    : Res (list bool) :=
  lab ← getattr box_label;
  a ← getitem lab (2 * i);
  lab ← getattr box_label;
  b ← getitem lab (2 * i + 1);
  if bool_decide (a = b) && bool_decide (b = -1)
  then setitem period i true
  else Ok period.

Definition periodicity (dim : nat) (box_label : option (list Z)) : Res (list bool) :=
  for_xrange dim (periodicity_step box_label) (replicate dim false).

(** Lines 142-148: a border that has a neighbouring process becomes an
    interface, label [-2]. [interface_labels_step] is the body of the loop;
    [voisins] is the pair returned by [cartcomm.Shift(i, 1)]. *)
Definition interface_labels_step (PROC_NULL : Z) (itf : Interface) (i : nat)
    (box_label : list Z) : Res (list Z) :=
  let voisins := cartcomm_Shift itf i in
  box_label ← (if bool_decide (voisins.1 ≠ PROC_NULL)
               then setitem box_label (2 * i) (-2) else Ok box_label);
  if bool_decide (voisins.2 ≠ PROC_NULL)
  then setitem box_label (2 * i + 1) (-2) else Ok box_label.

Definition interface_labels (PROC_NULL : Z) (dim : nat) (itf : Interface)
    (box_label : list Z) : Res (list Z) :=
  for_xrange dim (interface_labels_step PROC_NULL itf) box_label.

Section Geometry.
(** What [mpi4py] and the module [interface] provide. *)
Context {Comm : Type}.
Variable COMM_WORLD : Comm.
Variable PROC_NULL : Z.
Variable Interface_init : nat → list bool → Comm → Interface.

(** [Geometry.__init__]. When the label of the dictionary is a list,
    [self.box_label] is that very list, so the override of lines 142-148
    also changes the list the dictionary holds; the constructor does not
    read the dictionary's label again, and the embedding returns the
    instance. [self.bounds] is a copy of [self.globalbounds], which the
    decomposition leaves as read. *)
Definition Geometry_init (dico : Dico Comm) : M Geometry :=
  '(dim, globalbounds) ← get_box dico;
  let list_elem := [] in
  box ← lift (dict_getitem (key_box dico));
  let dummylab := dict_get (key_label box) (LabInt (-1)) in
  box_label ← initial_box_label dim dummylab;
  period ← lift (periodicity dim box_label);
  emit (NewInterface dim period);;
  let interface := Interface_init dim period (dict_get (key_comm dico) COMM_WORLD) in
  let bounds := globalbounds in
  bounds ← lift (split_bounds bounds (split interface) (get_coords interface));
  lab ← lift (getattr box_label);
  box_label ← lift (interface_labels PROC_NULL dim interface lab);
  let list_elem :=
    match key_elements dico with
    | Some elem => foldl (λ acc elemk, acc ++ [elemk]) list_elem elem
    | None => list_elem
    end in
  mret {| dim := dim; globalbounds := globalbounds; bounds := bounds;
          box_label := box_label; list_elem := list_elem; interface := interface |}.

End Geometry.

Definition add_elem (self : Geometry) (elem : Element) : Geometry :=
  {| dim := dim self; globalbounds := globalbounds self; bounds := bounds self;
     box_label := box_label self; list_elem := list_elem self ++ [elem];
     interface := interface self |}.

Definition list_of_labels (self : Geometry) : list Z :=
  foldl (λ L elem, np_union1d L (label elem)) (np_unique (box_label self)) (list_elem self).

(** The public methods of a [Geometry] and the instance after a call. Only
    [add_elem] assigns to an attribute or changes a list held by one;
    [visualize], [list_of_labels] and [__str__] read them. *)
Inductive Method :=
| call_add_elem (elem : Element)
| call_visualize
| call_list_of_labels
| call_str.

Definition call (self : Geometry) (m : Method) : Geometry :=
  match m with
  | call_add_elem elem => add_elem self elem
  | call_visualize | call_list_of_labels | call_str => self
  end.

(** ** The textual report *)

(** The characters written ["\t"] and ["\n"] in the source. *)
Definition tab : string := String (Ascii.ascii_of_nat 9) EmptyString.
Definition newline : string := String (Ascii.ascii_of_nat 10) EmptyString.

(** ["{0:d}".format(n)] for a non-negative integer: its decimal digits. *)
Definition format_d (n : nat) : string := pretty n.

Section Str.
(** [self.bounds.__str__()] is numpy's rendering of an array and
    [elem.__str__()] is defined by each class of the module [elements]. *)
Variable ndarray_str : ndarray float → string.
Variable Element_str : Element → string.

(** The line that opens the list of the elements. *)
Definition elements_title : string :=
  tab +:+ " List of elements added or deleted in the box" +:+ newline.

(** The line added for the element of index [k]. *)
Definition element_line (k : nat) (elem : Element) : string :=
  ((tab +:+ tab +:+ " Element number " +:+ format_d k +:+ ": ") +:+ Element_str elem)
  +:+ newline.

(** [Geometry.__str__] *)
Definition Geometry_str (self : Geometry) : Res string :=
  let s := "Geometry informations" +:+ newline in
  let s := s +:+ (tab +:+ " spatial dimension: " +:+ format_d (dim self) +:+ newline) in
  let s := s +:+ (((tab +:+ " bounds of the box: " +:+ newline) +:+ ndarray_str (bounds self))
                  +:+ newline) in
  if decide (length (list_elem self) ≠ 0%nat) then
    let s := s +:+ elements_title in
    for_xrange (length (list_elem self))
      (λ k s, elem ← getitem (list_elem self) k; Ok (s +:+ element_line k elem)) s
  else Ok s.
End Str.

(** ** Two process topologies

    Modelled from the spec: the process topology provider (module
    [interface], with [mpi4py]) is an external collaborator; these are the
    two topologies of the end-to-end examples of the specification. *)

(** [MPI.PROC_NULL], the rank that stands for "no neighbour"; its value is
    chosen by the MPI implementation. *)
Definition a_PROC_NULL : Z := -1.

(** A run on one process: split factor 1 and coordinate 0 on every axis, no
    neighbour in any direction. *)
Definition single_process (dim : nat) (period : list bool) (comm : unit) : Interface :=
  {| split := replicate dim 1;
     get_coords := replicate dim 0;
     cartcomm_Shift := λ _, (a_PROC_NULL, a_PROC_NULL) |}.

(** Two processes along the first axis of a two-dimensional box, seen from
    the process of coordinates (0, 0): its only neighbour, of rank 1, is
    above it along the first axis. *)
Definition two_along_x (dim : nat) (period : list bool) (comm : unit) : Interface :=
  {| split := [2; 1];
     get_coords := [0; 0];
     cartcomm_Shift := λ i, if decide (i = 0%nat) then (a_PROC_NULL, 1) else (a_PROC_NULL, a_PROC_NULL) |}.

(** A dictionary with a box and nothing else. *)
Definition box_only (box : Box) : Dico unit :=
  {| key_box := Some box; key_elements := None; key_comm := None |}.

(** * Properties *)

(** ** The monads *)

Lemma Res_bind_Ok {A B} (r : Res A) (k : A → Res B) (b : B) :
  r ≫= k = Ok b ↔ ∃ a, r = Ok a ∧ k a = Ok b.
Proof.
  destruct r as [a|e]; simpl.
  - split; [eauto | intros (a' & [= <-] & Hk); exact Hk].
  - split; [discriminate | intros (a' & [=] & _)].
Qed.

Lemma Res_bind_ret {A B} (a : A) (k : A → Res B) : Ok a ≫= k = k a.
Proof. reflexivity. Qed.

Ltac res_step := repeat (rewrite Res_bind_ret; cbv beta).

Lemma M_bind_Ok {A B} (m : M A) (k : A → M B) (tr : list Event) (b : B) :
  m ≫= k = (tr, Ok b) ↔
  ∃ tr1 a tr2, m = (tr1, Ok a) ∧ k a = (tr2, Ok b) ∧ tr = tr1 ++ tr2.
Proof.
  destruct m as [tr1 [a|e]]; unfold mbind, M_bind.
  - destruct (k a) as [tr2 r] eqn:Hk. split.
    + intros [= <- ->]. eauto 6.
    + intros (tr1' & a' & tr2' & [= <- <-] & Hk' & ->).
      rewrite Hk in Hk'. by injection Hk' as -> ->.
  - split; [discriminate | intros (? & ? & ? & [=] & _)].
Qed.

Lemma M_bind_eval {A B} (m : M A) (k : A → M B) tr1 a :
  m = (tr1, Ok a) → m ≫= k = (tr1 ++ (k a).1, (k a).2).
Proof. intros ->. unfold mbind, M_bind. by destruct (k a). Qed.

Lemma M_bind_raise {A B} (m : M A) (k : A → M B) tr1 e :
  m = (tr1, Raise e) → m ≫= k = (tr1, Raise e).
Proof. by intros ->. Qed.

(** ** Columns and elementwise operations *)

Lemma getitem_Some {A} (l : list A) i x : l !! i = Some x → getitem l i = Ok x.
Proof. unfold getitem. by intros ->. Qed.

Lemma getitem_Ok {A} (l : list A) i x : getitem l i = Ok x ↔ l !! i = Some x.
Proof. unfold getitem. destruct (l !! i); split; congruence. Qed.

Lemma setitem_Ok {A} (l : list A) i v :
  (i < length l)%nat → setitem l i v = Ok (<[i:=v]> l).
Proof. intros Hi. unfold setitem. by rewrite decide_True. Qed.

Section NumpyFacts.
Context {F : Type} `{Dtype F}.
Implicit Types (a : ndarray F) (v : list F).

Lemma getcol_Ok a j :
  Forall (λ row, j < length row)%nat a →
  ∃ col, getcol a j = Ok col ∧ length col = length a ∧
         ∀ d row, a !! d = Some row → col !! d = row !! j.
Proof.
  unfold getcol. induction 1 as [|row a Hrow _ (col & Hmap & Hlen & Hcol)]; simpl.
  - exists []. by split_and!.
  - destruct (lookup_lt_is_Some_2 row j Hrow) as [x Hx].
    rewrite (getitem_Some _ _ _ Hx). simpl. rewrite Hmap. simpl. exists (x :: col). split_and!; [done|simpl; lia|].
    intros [|d] row'; simpl; [by intros [= <-] | apply Hcol].
Qed.

Lemma ufunc2_same_length (op : F → F → F) v w :
  length v = length w → ufunc2 op v w = Ok (zip_with op v w).
Proof. intros Hl. unfold ufunc2. by rewrite decide_True. Qed.

Lemma setcol_Ok a j v :
  Forall (λ row, j < length row)%nat a → length v = length a →
  setcol a j v = Ok (zip_with (λ row x, <[j:=x]> row) a v).
Proof.
  intros Ha Hv. unfold setcol.
  destruct (getcol_Ok a j Ha) as (col & -> & _). simpl. by rewrite decide_True.
Qed.

Ltac len := unfold astype; rewrite ?length_zip_with, ?length_map; lia.

Lemma split_bounds_rows a (split coords : list Z) :
  Forall (λ row, 2 ≤ length row)%nat a →
  length split = length a → length coords = length a →
  ∃ local, split_bounds a split coords = Ok local ∧ length local = length a ∧
    ∀ d lo hi rest s c,
      a !! d = Some (lo :: hi :: rest) → split !! d = Some s → coords !! d = Some c →
      local !! d =
        Some (fadd lo (fmul (fdiv (fsub hi lo) (of_int s)) (of_int c))
              :: fadd lo (fmul (fdiv (fsub hi lo) (of_int s)) (of_int (c + 1)))
              :: rest).
Proof.
  intros Ha Hs Hc.
  assert (Ha1 : Forall (λ row, 1 < length row)%nat a) by (eapply Forall_impl; [done|]; simpl; lia).
  assert (Ha0 : Forall (λ row, 0 < length row)%nat a) by (eapply Forall_impl; [done|]; simpl; lia).
  destruct (getcol_Ok a 1 Ha1) as (hi & Hhi & Lhi & Phi).
  destruct (getcol_Ok a 0 Ha0) as (lo & Hlo & Llo & Plo).
  unfold split_bounds. rewrite Hhi. res_step. rewrite Hlo. res_step.
  rewrite (ufunc2_same_length fsub hi lo) by lia. res_step.
  rewrite (ufunc2_same_length fdiv _ (astype split)) by len. res_step.
  set (t := zip_with fdiv (zip_with fsub hi lo) (astype split)).
  assert (Lt : length t = length a) by (unfold t; len).
  rewrite (ufunc2_same_length fmul t (astype (map _ coords))) by len. res_step.
  rewrite (ufunc2_same_length fadd lo (zip_with fmul t _)) by len. res_step.
  set (new_hi := zip_with fadd lo _).
  assert (Lnh : length new_hi = length a) by (unfold new_hi; len).
  rewrite setcol_Ok by done. res_step.
  set (a1 := zip_with _ a new_hi).
  assert (La1 : length a1 = length a) by (unfold a1; len).
  assert (Ha1' : Forall (λ row, 0 < length row)%nat a1).
  { apply Forall_lookup. intros d row. unfold a1. rewrite lookup_zip_with.
    destruct (a !! d) as [r|] eqn:Hr; simpl; [|done].
    destruct (new_hi !! d); simpl; [|done]. intros [= <-]. rewrite length_insert.
    eapply Forall_lookup in Ha0; eauto. }
  destruct (getcol_Ok a1 0 Ha1') as (lo2 & Hlo2 & Llo2 & Plo2).
  rewrite Hlo2. res_step.
  rewrite (ufunc2_same_length fmul t (astype coords)) by len. res_step.
  rewrite (ufunc2_same_length fadd lo2 (zip_with fmul t _)) by len. res_step.
  set (new_lo := zip_with fadd lo2 _).
  assert (Lnl : length new_lo = length a) by (unfold new_lo; len).
  rewrite setcol_Ok by (done || lia).
  eexists. split; [done|]. split; [rewrite length_zip_with; lia|].
  intros d l h rest s c Hd Hsd Hcd.
  assert (Hhd : hi !! d = Some h) by (rewrite (Phi _ _ Hd); done).
  assert (Hld : lo !! d = Some l) by (rewrite (Plo _ _ Hd); done).
  assert (Htd : t !! d = Some (fdiv (fsub h l) (of_int s))).
  { unfold t, astype. rewrite !lookup_zip_with, Hhd, Hld, list_lookup_fmap, Hsd. done. }
  assert (Hnh : new_hi !! d = Some (fadd l (fmul (fdiv (fsub h l) (of_int s)) (of_int (c + 1))))).
  { unfold new_hi, astype. rewrite !lookup_zip_with, Hld, Htd, !list_lookup_fmap, Hcd. done. }
  assert (Ha1d : a1 !! d = Some (l :: fadd l (fmul (fdiv (fsub h l) (of_int s)) (of_int (c + 1))) :: rest)).
  { unfold a1. rewrite lookup_zip_with, Hd, Hnh. done. }
  assert (Hl2 : lo2 !! d = Some l) by (rewrite (Plo2 _ _ Ha1d); done).
  assert (Hnl : new_lo !! d = Some (fadd l (fmul (fdiv (fsub h l) (of_int s)) (of_int c)))).
  { unfold new_lo, astype. rewrite !lookup_zip_with, Hl2, Htd, !list_lookup_fmap, Hcd. done. }
  rewrite lookup_zip_with, Ha1d, Hnl. done.
Qed.

End NumpyFacts.

(** ** Binary64 arithmetic *)

Lemma iter_pos_nat {A} (f : A → A) (p : positive) : ∀ x,
  SpecFloat.iter_pos f p x = Nat.iter (Pos.to_nat p) f x.
Proof.
  induction p as [p IH|p IH|]; intros x; cbn [SpecFloat.iter_pos].
  - rewrite !IH, Pos2Nat.inj_xI, <- Nat.iter_succ_r.
    replace (S (2 * Pos.to_nat p)) with (Pos.to_nat p + S (Pos.to_nat p))%nat by lia.
    by rewrite Nat.iter_add.
  - rewrite !IH, Pos2Nat.inj_xO.
    replace (2 * Pos.to_nat p)%nat with (Pos.to_nat p + Pos.to_nat p)%nat by lia.
    by rewrite Nat.iter_add.
  - done.
Qed.

(** Shifting out the [k] zero bits appended to a mantissa is exact. *)
Lemma shr_1_shiftl (m : positive) (k : nat) :
  Nat.iter k shr_1 {| shr_m := Zpos (Pos.shiftl_nat m k); shr_r := false; shr_s := false |}
  = {| shr_m := Zpos m; shr_r := false; shr_s := false |}.
Proof.
  induction k as [|k IH]; [done|].
  rewrite Nat.iter_succ_r. exact IH.
Qed.

Lemma digits2_pos_shiftl (m : positive) (k : nat) :
  Zpos (digits2_pos (Pos.shiftl_nat m k)) = Zpos (digits2_pos m) + Z.of_nat k.
Proof.
  induction k as [|k IH]; [simpl; lia|].
  change (Pos.shiftl_nat m (S k)) with (xO (Pos.shiftl_nat m k)).
  simpl digits2_pos. rewrite Pos2Z.inj_succ, IH. lia.
Qed.

Lemma bounded_inv m e :
  bounded prec emax m e = true →
  fexp prec emax (Zpos (digits2_pos m) + e) = e ∧ e ≤ emax - prec.
Proof.
  unfold bounded, canonical_mantissa. intros [H1 H2]%andb_prop.
  split; [by apply Z.eqb_eq | by apply Z.leb_le].
Qed.

(** Rounding a value that is a binary64 number returns that number. *)
Lemma binary_round_aux_exact s m e (k : nat) :
  bounded prec emax m e = true →
  binary_round_aux prec emax s (Zpos (Pos.shiftl_nat m k)) (e - Z.of_nat k) loc_Exact
  = S754_finite s m e.
Proof.
  intros [Hc He]%bounded_inv.
  assert (H0 : shr_fexp prec emax (Zpos m) e loc_Exact
               = ({| shr_m := Zpos m; shr_r := false; shr_s := false |}, e)).
  { unfold shr_fexp. simpl Zdigits2. rewrite Hc, Z.sub_diag. done. }
  assert (H1 : shr_fexp prec emax (Zpos (Pos.shiftl_nat m k)) (e - Z.of_nat k) loc_Exact
               = ({| shr_m := Zpos m; shr_r := false; shr_s := false |}, e)).
  { unfold shr_fexp. simpl Zdigits2. rewrite digits2_pos_shiftl.
    replace (Zpos (digits2_pos m) + Z.of_nat k + (e - Z.of_nat k)) with (Zpos (digits2_pos m) + e) by lia.
    rewrite Hc. replace (e - (e - Z.of_nat k)) with (Z.of_nat k) by lia.
    destruct k as [|k]; [simpl; f_equal; lia|].
    change (Z.of_nat (S k)) with (Zpos (Pos.of_succ_nat k)).
    unfold shr. rewrite iter_pos_nat, SuccNat2Pos.id_succ.
    unfold shr_record_of_loc. rewrite (shr_1_shiftl m (S k)). f_equal. lia. }
  unfold binary_round_aux. rewrite H1. simpl shr_m. simpl loc_of_shr_record.
  simpl round_nearest_even. rewrite H0. simpl shr_m.
  apply Z.leb_le in He. by rewrite He.
Qed.

Lemma div_eucl_mul (q b : Z) : 0 < b → Z.div_eucl (b * q) b = (q, 0).
Proof.
  intros Hb. rewrite Z.mul_comm. pose proof (Z.div_mul q b ltac:(lia)) as Hd.
  pose proof (Z.mod_mul q b ltac:(lia)) as Hm.
  unfold Z.div, Z.modulo in Hd, Hm. destruct (Z.div_eucl (q * b) b). by subst.
Qed.

Local Open Scope float_scope.

Lemma f8_mul_1 (x : float) : x * 1 = x.
Proof.
  apply Prim2SF_inj. rewrite mul_spec.
  change (Prim2SF 1) with (S754_finite false 4503599627370496 (-52)).
  pose proof (Prim2SF_valid x) as Hv.
  destruct (Prim2SF x) as [s|s| |s m e]; unfold SF64mul, SFmul;
    try (by rewrite xorb_false_r); [done|].
  rewrite xorb_false_r, Pos.mul_comm.
  change (4503599627370496 * m)%positive with (Pos.shiftl_nat m 52).
  change (e + -52)%Z with (e - Z.of_nat 52)%Z.
  by apply binary_round_aux_exact.
Qed.

Lemma f8_div_1 (x : float) : x / 1 = x.
Proof.
  apply Prim2SF_inj. rewrite div_spec.
  change (Prim2SF 1) with (S754_finite false 4503599627370496 (-52)).
  pose proof (Prim2SF_valid x) as Hv.
  destruct (Prim2SF x) as [s|s| |s m e]; unfold SF64div, SFdiv;
    try (by rewrite xorb_false_r); [done|].
  rewrite xorb_false_r. simpl in Hv.
  destruct (bounded_inv m e Hv) as [Hc He].
  unfold SFdiv_core_binary. simpl Zdigits2.
  change (Zpos (digits2_pos 4503599627370496)) with 53%Z.
  unfold fexp, SpecFloat.emin in Hc |- *.
  change (3 - emax - prec)%Z with (-1074)%Z in *. change prec with 53%Z in *.
  destruct (decide (Zpos (digits2_pos m) = 53 ∧ -1074 < e)%Z) as [[Hd Hlt]|Hn].
  - replace (Z.min _ _) with (e - 1)%Z by lia.
    replace (e - -52 - (e - 1))%Z with 53%Z by lia.
    change (Z.shiftl (Zpos m) 53) with (4503599627370496 * Zpos (Pos.shiftl_nat m 1))%Z.
    rewrite div_eucl_mul by done.
    change (e - 1)%Z with (e - Z.of_nat 1)%Z.
    change (new_location 4503599627370496 0) with loc_Exact.
    by apply binary_round_aux_exact.
  - replace (Z.min _ _) with e by lia.
    replace (e - -52 - e)%Z with 52%Z by lia.
    change (Z.shiftl (Zpos m) 52) with (4503599627370496 * Zpos (Pos.shiftl_nat m 0))%Z.
    rewrite div_eucl_mul by done.
    change (new_location 4503599627370496 0) with loc_Exact.
    replace e with (e - Z.of_nat 0)%Z at 1 by (simpl; lia).
    by apply binary_round_aux_exact.
Qed.

(** A finite step multiplied by the coordinate 0 is a zero, and adding a
    zero keeps every value but [-0.0], which [+0.0] turns into [+0.0]. *)
Lemma f8_add_mul_0 (lo t : float) :
  is_finite64 t = true → lo + t * Z2f8 0 = lo ∨ (lo = -0 ∧ lo + t * Z2f8 0 = 0).
Proof.
  unfold is_finite64. intros Hfin. change (Z2f8 0) with 0.
  assert (Hmul : ∃ s, Prim2SF (t * 0) = S754_zero s).
  { rewrite mul_spec. change (Prim2SF 0) with (S754_zero false).
    destruct (Prim2SF t) as [s|s| |s m e]; try done; unfold SF64mul, SFmul; eauto. }
  destruct Hmul as [s Hmul].
  assert (Hadd : Prim2SF (lo + t * 0) = SF64add (Prim2SF lo) (S754_zero s))
    by (by rewrite add_spec, Hmul).
  destruct (Prim2SF lo) as [sl|sl| |sl ml el] eqn:Hlo.
  - destruct sl, s; unfold SF64add, SFadd in Hadd.
    + left. apply Prim2SF_inj. by rewrite Hadd, Hlo.
    + right. split; apply Prim2SF_inj; [by rewrite Hlo | by rewrite Hadd].
    + left. apply Prim2SF_inj. by rewrite Hadd, Hlo.
    + left. apply Prim2SF_inj. by rewrite Hadd, Hlo.
  - left. apply Prim2SF_inj. by rewrite Hadd, Hlo.
  - left. apply Prim2SF_inj. by rewrite Hadd, Hlo.
  - left. apply Prim2SF_inj. by rewrite Hadd, Hlo.
Qed.

(** From [0.0], the width of the axis is its high bound. *)
Lemma f8_from_zero (hi : float) :
  is_finite64 hi = true → hi ≠ -0 → hi - 0 = hi ∧ 0 + hi = hi.
Proof.
  unfold is_finite64. intros Hfin Hneg.
  assert (Hs : Prim2SF hi ≠ S754_zero true).
  { intros Hz. apply Hneg. apply Prim2SF_inj. by rewrite Hz. }
  split; apply Prim2SF_inj.
  - rewrite sub_spec. change (Prim2SF 0) with (S754_zero false).
    destruct (Prim2SF hi) as [[]|s| |s m e]; done.
  - rewrite add_spec. change (Prim2SF 0) with (S754_zero false).
    destruct (Prim2SF hi) as [[]|s| |s m e]; done.
Qed.

Local Close Scope float_scope.

(** ** Domain decomposition *)

Local Open Scope float_scope.

(** C3. For every axis [d] of an array of bound pairs, with one split factor
    and one coordinate per axis, the decomposition succeeds and row [d] of
    the local bounds is [lo + step * coords[d]] followed by
    [lo + step * (coords[d] + 1)], where [step = (hi - lo) / split[d]] and
    [lo], [hi] are the global bounds of the axis: both are anchored at the
    global low bound, not at a value already overwritten. All operations are
    those of binary64. *)
Theorem local_bounds_formula (globalbounds : ndarray float) (split coords : list Z) :
  Forall (λ row, 2 ≤ length row)%nat globalbounds →
  length split = length globalbounds →
  length coords = length globalbounds →
  ∃ local, split_bounds globalbounds split coords = Ok local ∧
    length local = length globalbounds ∧
    ∀ d lo hi rest s c,
      globalbounds !! d = Some (lo :: hi :: rest) →
      split !! d = Some s → coords !! d = Some c →
      let step := (hi - lo) / Z2f8 s in
      local !! d = Some (lo + step * Z2f8 c :: lo + step * Z2f8 (c + 1) :: rest).
Proof.
  intros Hrows Hs Hc.
  destruct (split_bounds_rows globalbounds split coords Hrows Hs Hc) as (local & Hrun & Hlen & Hrow).
  exists local. split_and!; [done..|].
  intros d lo hi rest s c Hd Hsd Hcd step. exact (Hrow d lo hi rest s c Hd Hsd Hcd).
Qed.

Lemma local_bounds_formula_witness :
  Forall (λ row : list float, 2 ≤ length row)%nat [[0; 2]; [0; 1]] ∧
  ∃ local, split_bounds [[0; 2]; [0; 1]] [2; 1]%Z [1; 0]%Z = Ok local ∧
    length local = 2%nat ∧
    ∀ d lo hi rest s c,
      [[0; 2]; [0; 1]] !! d = Some (lo :: hi :: rest) →
      [2; 1]%Z !! d = Some s → [1; 0]%Z !! d = Some c →
      let step := (hi - lo) / Z2f8 s in
      local !! d = Some (lo + step * Z2f8 c :: lo + step * Z2f8 (c + 1) :: rest).
Proof.
  assert (Hrows : Forall (λ row : list float, 2 ≤ length row)%nat [[0; 2]; [0; 1]])
    by (repeat constructor).
  split; [exact Hrows|].
  exact (local_bounds_formula [[0; 2]; [0; 1]] [2; 1]%Z [1; 0]%Z Hrows eq_refl eq_refl).
Defined.

(** C4, as the code has it. For an axis [d] with split factor 1 and
    coordinate 0, in binary64: the division by 1 and the multiplication by
    1 are exact, so the local high bound is [lo + (hi - lo)], the rounded
    sum of the rounded difference, which need not be [hi]; the local low
    bound is [lo + ((hi - lo) / 1) * 0], which is [lo] bitwise whenever
    [hi - lo] is finite, except that a low bound [-0.0] may come out as
    [+0.0]. So, for a finite width and a low bound other than [-0.0], the
    local pair is the global pair bitwise exactly when the round trip
    [lo + (hi - lo)] returns [hi]; it does when the axis starts at [0.0]
    and [hi] is finite and not [-0.0]. *)
Theorem identity_split_bounds (globalbounds : ndarray float) (split coords : list Z)
    (d : nat) (lo hi : float) (rest : list float) :
  Forall (λ row, 2 ≤ length row)%nat globalbounds →
  length split = length globalbounds → length coords = length globalbounds →
  globalbounds !! d = Some (lo :: hi :: rest) →
  split !! d = Some 1%Z → coords !! d = Some 0%Z →
  ∃ local low,
    split_bounds globalbounds split coords = Ok local ∧
    local !! d = Some (low :: lo + (hi - lo) :: rest) ∧
    (is_finite64 (hi - lo) = true → low = lo ∨ (lo = -0 ∧ low = 0)) ∧
    (is_finite64 (hi - lo) = true → lo ≠ -0 →
     (local !! d = globalbounds !! d ↔ lo + (hi - lo) = hi)) ∧
    (lo = 0 → is_finite64 hi = true → hi ≠ -0 → local !! d = globalbounds !! d).
Proof.
  intros Hrows Hs Hc Hd Hsd Hcd.
  destruct (split_bounds_rows globalbounds split coords Hrows Hs Hc) as (local & Hrun & _ & Hrow).
  specialize (Hrow d lo hi rest 1%Z 0%Z Hd Hsd Hcd). cbn [fadd fsub fmul fdiv of_int f8] in Hrow.
  change (Z2f8 (0 + 1)) with 1 in Hrow. change (Z2f8 1) with 1 in Hrow.
  rewrite f8_div_1, f8_mul_1 in Hrow.
  exists local, (lo + (hi - lo) * Z2f8 0). split_and!; [done..| | |].
  - apply f8_add_mul_0.
  - intros Hfin Hneg. rewrite Hrow, Hd.
    destruct (f8_add_mul_0 lo (hi - lo) Hfin) as [->|[Hz _]]; [|done].
    split; [by intros [= ->] | by intros ->].
  - intros -> Hfin Hneg. rewrite Hrow, Hd.
    destruct (f8_from_zero hi Hfin Hneg) as (Hsub & Hadd). rewrite Hsub, Hadd.
    destruct (f8_add_mul_0 0 hi Hfin) as [->|[Hz _]]; [done|].
    apply (f_equal Prim2SF) in Hz. vm_compute in Hz. discriminate.
Qed.

Lemma identity_split_bounds_witness :
  ∃ local low,
    split_bounds [[0; 2]; [0x1.999999999999ap-4; 0x1.3333333333333p-2]] [2; 1]%Z [0; 0]%Z = Ok local ∧
    local !! 1%nat
    = Some [low; 0x1.999999999999ap-4 + (0x1.3333333333333p-2 - 0x1.999999999999ap-4)] ∧
    (is_finite64 (0x1.3333333333333p-2 - 0x1.999999999999ap-4) = true →
     low = 0x1.999999999999ap-4 ∨ (0x1.999999999999ap-4 = -0 ∧ low = 0)) ∧
    (is_finite64 (0x1.3333333333333p-2 - 0x1.999999999999ap-4) = true →
     0x1.999999999999ap-4 ≠ -0 →
     (local !! 1%nat = [[0; 2]; [0x1.999999999999ap-4; 0x1.3333333333333p-2]] !! 1%nat ↔
      0x1.999999999999ap-4 + (0x1.3333333333333p-2 - 0x1.999999999999ap-4)
      = 0x1.3333333333333p-2)) ∧
    (0x1.999999999999ap-4 = 0 → is_finite64 0x1.3333333333333p-2 = true →
     0x1.3333333333333p-2 ≠ -0 →
     local !! 1%nat = [[0; 2]; [0x1.999999999999ap-4; 0x1.3333333333333p-2]] !! 1%nat).
Proof.
  apply (identity_split_bounds
           [[0; 2]; [0x1.999999999999ap-4; 0x1.3333333333333p-2]] [2; 1]%Z [0; 0]%Z
           1%nat 0x1.999999999999ap-4 0x1.3333333333333p-2 []);
    [repeat constructor | reflexivity..].
Defined.

(** C4 as stated fails in binary64. On one process (split factor 1,
    coordinate 0):
    - the box [{'x': [-1, 0.1], 'label': 0}] has the global bounds
      [-1, 0.1] and the local bounds [-1, 0.10000000000000009]: the high
      bound moves;
    - the box [{'x': [-0.0, 1.0], 'label': 0}] has the local bounds
      [0.0, 1.0]: the low bound loses its sign bit;
    - the box [{'x': [-1.7976931348623157e+308, 1.7976931348623157e+308],
      'label': 0}], whose width overflows, has the local bounds
      [nan, inf]. *)
Lemma identity_split_not_bitwise :
  (∃ g, (Geometry_init tt a_PROC_NULL single_process
           (box_only {| key_x := Some [PyInt (-1); PyFloat 0x1.999999999999ap-4];
                        key_y := None; key_z := None; key_label := Some (LabInt 0) |})).2 = Ok g ∧
        split (interface g) = [1%Z] ∧ get_coords (interface g) = [0%Z] ∧
        globalbounds g = [[-1; 0x1.999999999999ap-4]] ∧
        bounds g = [[-1; 0x1.99999999999a0p-4]] ∧
        bounds g ≠ globalbounds g) ∧
  (∃ g, (Geometry_init tt a_PROC_NULL single_process
           (box_only {| key_x := Some [PyFloat (-0); PyFloat 1];
                        key_y := None; key_z := None; key_label := Some (LabInt 0) |})).2 = Ok g ∧
        split (interface g) = [1%Z] ∧ get_coords (interface g) = [0%Z] ∧
        globalbounds g = [[-0; 1]] ∧
        bounds g = [[0; 1]] ∧
        bounds g ≠ globalbounds g) ∧
  (∃ g, (Geometry_init tt a_PROC_NULL single_process
           (box_only {| key_x := Some [PyFloat (-0x1.fffffffffffffp1023);
                                       PyFloat 0x1.fffffffffffffp1023];
                        key_y := None; key_z := None; key_label := Some (LabInt 0) |})).2 = Ok g ∧
        split (interface g) = [1%Z] ∧ get_coords (interface g) = [0%Z] ∧
        globalbounds g = [[-0x1.fffffffffffffp1023; 0x1.fffffffffffffp1023]] ∧
        bounds g = [[nan; infinity]] ∧
        bounds g ≠ globalbounds g).
Proof.
  split_and!.
  - eexists. split; [vm_compute; reflexivity|]. simpl.
    split_and!; try reflexivity.
    intros Heq.
    apply (f_equal (λ b, match b with [[_; hi]] => Prim2SF hi | _ => S754_nan end)) in Heq.
    vm_compute in Heq. discriminate.
  - eexists. split; [vm_compute; reflexivity|]. simpl.
    split_and!; try reflexivity.
    intros Heq.
    apply (f_equal (λ b, match b with [[lo; _]] => Prim2SF lo | _ => S754_nan end)) in Heq.
    vm_compute in Heq. discriminate.
  - eexists. split; [vm_compute; reflexivity|]. simpl.
    split_and!; try reflexivity.
    intros Heq.
    apply (f_equal (λ b, match b with [[lo; _]] => Prim2SF lo | _ => S754_zero false end)) in Heq.
    vm_compute in Heq. discriminate.
Qed.

Local Close Scope float_scope.

(** ** The interface override *)

Section InterfaceLabels.
Variable PROC_NULL : Z.
Variable itf : Interface.

(** The process has a neighbour below, respectively above, along axis [d]. *)
Local Abbreviation below d := ((cartcomm_Shift itf d).1 ≠ PROC_NULL).
Local Abbreviation above d := ((cartcomm_Shift itf d).2 ≠ PROC_NULL).
Local Abbreviation step := (interface_labels_step PROC_NULL itf).

Lemma interface_labels_step_Ok i (lab lab' : list Z) :
  step i lab = Ok lab' →
  length lab' = length lab ∧
  (below i → lab' !! (2 * i)%nat = Some (-2)) ∧
  (¬ below i → lab' !! (2 * i)%nat = lab !! (2 * i)%nat) ∧
  (above i → lab' !! (2 * i + 1)%nat = Some (-2)) ∧
  (¬ above i → lab' !! (2 * i + 1)%nat = lab !! (2 * i + 1)%nat) ∧
  (∀ k, k ≠ (2 * i)%nat → k ≠ (2 * i + 1)%nat → lab' !! k = lab !! k).
Proof.
  unfold interface_labels_step, setitem. cbv zeta.
  repeat case_bool_decide; repeat case_decide; simpl; try discriminate;
    repeat case_decide; try discriminate; intros [= <-];
    rewrite ?length_insert in *; split_and!; try done; intros;
    rewrite ?list_lookup_insert_eq, ?list_lookup_insert_ne by (rewrite ?length_insert; lia);
    rewrite ?list_lookup_insert_eq, ?list_lookup_insert_ne by (rewrite ?length_insert; lia);
    done.
Qed.

Lemma interface_labels_step_total i (lab : list Z) :
  (2 * i + 1 < length lab)%nat → ∃ lab', step i lab = Ok lab'.
Proof.
  intros Hi. unfold interface_labels_step. cbv zeta.
  destruct (bool_decide (below i)); [rewrite setitem_Ok by lia|]; res_step;
    (destruct (bool_decide (above i));
     [rewrite setitem_Ok by (rewrite ?length_insert; lia)|]); eauto.
Qed.

Lemma interface_labels_step_fixed i (lab : list Z) :
  (below i → lab !! (2 * i)%nat = Some (-2)) →
  (above i → lab !! (2 * i + 1)%nat = Some (-2)) →
  step i lab = Ok lab.
Proof.
  intros Hb Ha. unfold interface_labels_step. cbv zeta.
  assert (Hlo : (if bool_decide (below i) then setitem lab (2 * i) (-2) else Ok lab) = Ok lab).
  { case_bool_decide as Hd; [|done]. specialize (Hb Hd).
    rewrite setitem_Ok by (by eapply lookup_lt_Some). by rewrite list_insert_id. }
  rewrite Hlo. res_step. clear Hlo.
  case_bool_decide as Hd; [|done]. specialize (Ha Hd).
  rewrite setitem_Ok by (by eapply lookup_lt_Some). by rewrite list_insert_id.
Qed.

Lemma interface_loop_Ok n : ∀ s (lab lab' : list Z),
  for_range_from s n step lab = Ok lab' →
  length lab' = length lab ∧
  (∀ d, (s ≤ d < s + n)%nat → below d → lab' !! (2 * d)%nat = Some (-2)) ∧
  (∀ d, (s ≤ d < s + n)%nat → ¬ below d → lab' !! (2 * d)%nat = lab !! (2 * d)%nat) ∧
  (∀ d, (s ≤ d < s + n)%nat → above d → lab' !! (2 * d + 1)%nat = Some (-2)) ∧
  (∀ d, (s ≤ d < s + n)%nat → ¬ above d → lab' !! (2 * d + 1)%nat = lab !! (2 * d + 1)%nat) ∧
  (∀ k, (k < 2 * s ∨ 2 * (s + n) ≤ k)%nat → lab' !! k = lab !! k).
Proof.
  induction n as [|n IH]; intros s lab lab'; cbn [for_range_from].
  - intros [= <-]. split_and!; try done; intros; lia.
  - intros (lab1 & Hstep & Hloop)%Res_bind_Ok.
    destruct (interface_labels_step_Ok _ _ _ Hstep) as (L1 & B1 & B0 & A1 & A0 & O).
    destruct (IH _ _ _ Hloop) as (L2 & IB1 & IB0 & IA1 & IA0 & IO).
    split_and!.
    + congruence.
    + intros d Hd Hb. destruct (decide (d = s)) as [->|].
      * rewrite IO by lia. auto.
      * apply IB1; [lia|done].
    + intros d Hd Hb. destruct (decide (d = s)) as [->|].
      * rewrite IO by lia. auto.
      * rewrite IB0 by (lia || done). apply O; lia.
    + intros d Hd Hb. destruct (decide (d = s)) as [->|].
      * rewrite IO by lia. auto.
      * apply IA1; [lia|done].
    + intros d Hd Hb. destruct (decide (d = s)) as [->|].
      * rewrite IO by lia. auto.
      * rewrite IA0 by (lia || done). apply O; lia.
    + intros k Hk. rewrite IO by lia. apply O; lia.
Qed.

Lemma interface_loop_total n : ∀ s (lab : list Z),
  (2 * (s + n) ≤ length lab)%nat → ∃ lab', for_range_from s n step lab = Ok lab'.
Proof.
  induction n as [|n IH]; intros s lab Hlen; cbn [for_range_from]; [eauto|].
  destruct (interface_labels_step_total s lab) as [lab1 Hstep]; [lia|].
  rewrite Hstep. res_step. apply IH.
  apply interface_labels_step_Ok in Hstep as (-> & _). lia.
Qed.

Lemma interface_loop_fixed n : ∀ s (lab : list Z),
  (∀ d, (s ≤ d < s + n)%nat → below d → lab !! (2 * d)%nat = Some (-2)) →
  (∀ d, (s ≤ d < s + n)%nat → above d → lab !! (2 * d + 1)%nat = Some (-2)) →
  for_range_from s n step lab = Ok lab.
Proof.
  induction n as [|n IH]; intros s lab Hb Ha; cbn [for_range_from]; [done|].
  rewrite interface_labels_step_fixed by (intros; (apply Hb || apply Ha); (lia || done)).
  res_step. apply IH; intros; (apply Hb || apply Ha); (lia || done).
Qed.

End InterfaceLabels.

(** C5. On a label array with an entry for each of the [2*dim] faces, the
    interface override succeeds and, for every axis [d], entry [2d] becomes
    [-2] exactly when the topology reports a neighbour below along [d]
    (otherwise it keeps its value), entry [2d+1] becomes [-2] exactly when
    it reports a neighbour above; no other entry changes and the array keeps
    its length. *)
Theorem interface_override_labels (PROC_NULL : Z) (dim : nat) (itf : Interface)
    (labels : list Z) :
  (2 * dim ≤ length labels)%nat →
  ∃ labels', interface_labels PROC_NULL dim itf labels = Ok labels' ∧
    length labels' = length labels ∧
    (∀ d, (d < dim)%nat →
       ((cartcomm_Shift itf d).1 ≠ PROC_NULL → labels' !! (2 * d)%nat = Some (-2)) ∧
       ((cartcomm_Shift itf d).1 = PROC_NULL → labels' !! (2 * d)%nat = labels !! (2 * d)%nat) ∧
       ((cartcomm_Shift itf d).2 ≠ PROC_NULL → labels' !! (2 * d + 1)%nat = Some (-2)) ∧
       ((cartcomm_Shift itf d).2 = PROC_NULL →
          labels' !! (2 * d + 1)%nat = labels !! (2 * d + 1)%nat)) ∧
    (∀ k, (2 * dim ≤ k)%nat → labels' !! k = labels !! k).
Proof.
  intros Hlen. unfold interface_labels, for_xrange.
  destruct (interface_loop_total PROC_NULL itf dim 0 labels) as [labels' Hrun]; [lia|].
  exists labels'. split; [done|].
  destruct (interface_loop_Ok _ _ _ _ _ _ Hrun) as (L & B1 & B0 & A1 & A0 & O).
  split_and!; [done| |intros k Hk; apply O; lia].
  intros d Hd. split_and!; intros Hn;
    [apply B1|apply B0|apply A1|apply A0]; (lia || done || (intros Hne; by apply Hne)).
Qed.

Lemma interface_override_labels_witness :
  (2 * 2 ≤ length [1; 1; 1; 1])%nat ∧
  ∃ labels', interface_labels a_PROC_NULL 2 (two_along_x 2 [false; false] ()) [1; 1; 1; 1]
             = Ok labels' ∧
    length labels' = 4%nat ∧
    (∀ d, (d < 2)%nat →
       ((cartcomm_Shift (two_along_x 2 [false; false] ()) d).1 ≠ a_PROC_NULL →
          labels' !! (2 * d)%nat = Some (-2)) ∧
       ((cartcomm_Shift (two_along_x 2 [false; false] ()) d).1 = a_PROC_NULL →
          labels' !! (2 * d)%nat = [1; 1; 1; 1] !! (2 * d)%nat) ∧
       ((cartcomm_Shift (two_along_x 2 [false; false] ()) d).2 ≠ a_PROC_NULL →
          labels' !! (2 * d + 1)%nat = Some (-2)) ∧
       ((cartcomm_Shift (two_along_x 2 [false; false] ()) d).2 = a_PROC_NULL →
          labels' !! (2 * d + 1)%nat = [1; 1; 1; 1] !! (2 * d + 1)%nat)) ∧
    (∀ k, (2 * 2 ≤ k)%nat → labels' !! k = [1; 1; 1; 1] !! k).
Proof.
  assert (Hlen : (2 * 2 ≤ length [1; 1; 1; 1])%nat) by (simpl; lia).
  split; [exact Hlen|].
  exact (interface_override_labels a_PROC_NULL 2 (two_along_x 2 [false; false] ())
           [1; 1; 1; 1] Hlen).
Defined.

(** C7. For fixed neighbour flags, applying the interface override to its
    own result gives that result again; when the first application raises,
    so does the composition. *)
Theorem interface_override_idempotent (PROC_NULL : Z) (dim : nat) (itf : Interface)
    (labels : list Z) :
  interface_labels PROC_NULL dim itf labels ≫= interface_labels PROC_NULL dim itf
  = interface_labels PROC_NULL dim itf labels.
Proof.
  destruct (interface_labels PROC_NULL dim itf labels) as [labels'|e] eqn:Hrun; [|done].
  res_step. unfold interface_labels, for_xrange in *.
  destruct (interface_loop_Ok _ _ _ _ _ _ Hrun) as (_ & B1 & _ & A1 & _).
  apply interface_loop_fixed; [exact B1 | exact A1].
Qed.

(** ** Labels and elements *)

Lemma keep_changes_elem_of (l : list Z) : ∀ prev z,
  z ∈ prev :: keep_changes prev l ↔ z ∈ prev :: l.
Proof.
  induction l as [|y l IH]; intros prev z; simpl; [done|].
  case_decide as Hy.
  - subst y. rewrite IH, !elem_of_cons. tauto.
  - rewrite !elem_of_cons. rewrite <- (elem_of_cons l z y), <- IH, elem_of_cons. done.
Qed.

Lemma keep_changes_sorted (l : list Z) : ∀ prev,
  StronglySorted Z.le (prev :: l) → StronglySorted Z.lt (prev :: keep_changes prev l).
Proof.
  induction l as [|y l IH]; intros prev Hs; simpl.
  - repeat constructor.
  - apply StronglySorted_inv in Hs as [Hs Hprev].
    apply Forall_cons in Hprev as [Hy Hprev].
    case_decide as Hne.
    + subst y. apply IH. exact Hs.
    + specialize (IH y Hs). constructor; [exact IH|].
      apply Forall_forall. intros z Hz. apply (proj1 (keep_changes_elem_of l y z)) in Hz.
      apply StronglySorted_inv in Hs as [_ Hyl]. rewrite Forall_forall in Hyl.
      apply elem_of_cons in Hz as [->|Hz]; [lia|]. specialize (Hyl z Hz). lia.
Qed.

Lemma np_unique_elem_of (l : list Z) z : z ∈ np_unique l ↔ z ∈ l.
Proof.
  unfold np_unique. rewrite <- (merge_sort_Permutation Z.le l) at 2.
  destruct (merge_sort Z.le l) as [|x l']; [done|]. apply keep_changes_elem_of.
Qed.

Lemma np_unique_sorted (l : list Z) : StronglySorted Z.lt (np_unique l).
Proof.
  unfold np_unique. pose proof (StronglySorted_merge_sort Z.le l) as Hs.
  destruct (merge_sort Z.le l) as [|x l']; [constructor|]. by apply keep_changes_sorted.
Qed.

Lemma StronglySorted_lt_NoDup (l : list Z) : StronglySorted Z.lt l → NoDup l.
Proof.
  induction 1 as [|x l _ IH Hx]; constructor; [|done].
  intros Hin. rewrite Forall_forall in Hx. specialize (Hx x Hin). lia.
Qed.

Lemma labels_foldl_elem_of (elems : list Element) : ∀ (acc : list Z) z,
  z ∈ foldl (λ L elem, np_union1d L (label elem)) acc elems ↔
  z ∈ acc ∨ ∃ elem, elem ∈ elems ∧ z ∈ label elem.
Proof.
  induction elems as [|e elems IH]; intros acc z; simpl.
  - split; [auto | intros [?|(? & []%elem_of_nil & _)]; done].
  - rewrite IH. unfold np_union1d. rewrite np_unique_elem_of, elem_of_app. split.
    + intros [[?|?]|(e' & ? & ?)]; [auto | right; exists e; split; [left|done]
                                  | right; exists e'; split; [by right|done]].
    + intros [?|(e' & [->|?]%elem_of_cons & ?)]; eauto.
Qed.

Lemma labels_foldl_sorted (elems : list Element) : ∀ acc : list Z,
  StronglySorted Z.lt acc →
  StronglySorted Z.lt (foldl (λ L elem, np_union1d L (label elem)) acc elems).
Proof.
  induction elems as [|e elems IH]; intros acc Hacc; simpl; [done|].
  apply IH, np_unique_sorted.
Qed.




(** C10. The array returned by [list_of_labels] is sorted in strictly
    ascending order, hence has no duplicate, and it does not depend on the
    order of the face labels or of the elements: two geometries whose
    [box_label] and [list_elem] are permutations of each other give the same
    array. *)
Theorem list_of_labels_sorted_unique :
  (∀ self, StronglySorted Z.lt (list_of_labels self) ∧ NoDup (list_of_labels self)) ∧
  (∀ self other,
     box_label self ≡ₚ box_label other → list_elem self ≡ₚ list_elem other →
     list_of_labels self = list_of_labels other).
Proof.
  assert (Hs : ∀ self, StronglySorted Z.lt (list_of_labels self)).
  { intros self. apply labels_foldl_sorted, np_unique_sorted. }
  split.
  - intros self. split; [apply Hs | apply StronglySorted_lt_NoDup, Hs].
  - intros self other Hlab Helem.
    apply (StronglySorted_unique_strong Z.lt); [intros; lia | apply Hs..|].
    apply NoDup_Permutation; [apply StronglySorted_lt_NoDup, Hs..|].
    intros z. unfold list_of_labels. rewrite !labels_foldl_elem_of, !np_unique_elem_of, Hlab.
    split; intros [?|(e & He & ?)]; eauto; right; exists e; split; try done.
    + by rewrite <- Helem.
    + by rewrite Helem.
Qed.

Lemma list_of_labels_sorted_unique_witness :
  let itf := single_process 1 [false] () in
  let solid := {| isfluid := false; label := [3; 0] |} in
  let fluid := {| isfluid := true; label := [0] |} in
  let self := {| dim := 1; globalbounds := []; bounds := []; box_label := [5; -2];
                 list_elem := [solid; fluid]; interface := itf |} in
  let other := {| dim := 1; globalbounds := []; bounds := []; box_label := [-2; 5];
                  list_elem := [fluid; solid]; interface := itf |} in
  box_label self ≡ₚ box_label other ∧ list_elem self ≡ₚ list_elem other ∧
  list_of_labels self = [-2; 0; 3; 5] ∧
  list_of_labels self = list_of_labels other.
Proof.
  intros itf solid fluid self other.
  assert (Hlab : box_label self ≡ₚ box_label other) by apply perm_swap.
  assert (Helem : list_elem self ≡ₚ list_elem other) by apply perm_swap.
  split_and!; [exact Hlab | exact Helem | reflexivity |].
  exact (proj2 list_of_labels_sorted_unique self other Hlab Helem).
Defined.

Lemma call_frame (self : Geometry) (m : Method) :
  list_elem self `prefix_of` list_elem (call self m) ∧
  dim (call self m) = dim self ∧
  globalbounds (call self m) = globalbounds self ∧
  bounds (call self m) = bounds self ∧
  box_label (call self m) = box_label self ∧
  interface (call self m) = interface self.
Proof.
  destruct m; simpl; split_and!; try done. by apply prefix_app_r.
Qed.

(** C9. [add_elem(e)] makes [e] the last entry of [list_elem] and changes
    nothing else: the entries stored before keep their positions, and
    [dim], [globalbounds], [bounds], [box_label] and [interface] keep their
    values. Over any sequence of calls of the public methods the list only
    grows (the list before is a prefix of the list after) and the other
    attributes keep their values. *)
Theorem add_elem_appends (self : Geometry) (elem : Element) :
  list_elem (add_elem self elem) = list_elem self ++ [elem] ∧
  last (list_elem (add_elem self elem)) = Some elem ∧
  (∀ i e, list_elem self !! i = Some e → list_elem (add_elem self elem) !! i = Some e) ∧
  dim (add_elem self elem) = dim self ∧
  globalbounds (add_elem self elem) = globalbounds self ∧
  bounds (add_elem self elem) = bounds self ∧
  box_label (add_elem self elem) = box_label self ∧
  interface (add_elem self elem) = interface self ∧
  (∀ calls : list Method,
     list_elem self `prefix_of` list_elem (foldl call self calls) ∧
     dim (foldl call self calls) = dim self ∧
     globalbounds (foldl call self calls) = globalbounds self ∧
     bounds (foldl call self calls) = bounds self ∧
     box_label (foldl call self calls) = box_label self ∧
     interface (foldl call self calls) = interface self).
Proof.
  split_and!; try reflexivity.
  - simpl. apply last_snoc.
  - intros i e Hi. simpl. by apply lookup_app_l_Some.
  - intros calls. revert self. induction calls as [|m calls IH]; intros self; simpl.
    + done.
    + destruct (IH (call self m)) as (P & D & G & B & L & I).
      destruct (call_frame self m) as (P' & D' & G' & B' & L' & I').
      split_and!; [by etrans|congruence..].
Qed.

(** ** The constructor *)

Lemma lift_Ok {A} (r : Res A) tr a : lift r = (tr, Ok a) ↔ r = Ok a ∧ tr = [].
Proof. unfold lift. split; [by intros [= <- ->] | by intros [-> ->]]. Qed.

Lemma M_bind_lift_Ok {A B} (r : Res A) (k : A → M B) a : r = Ok a → lift r ≫= k = k a.
Proof. intros ->. unfold lift, mbind, M_bind. by destruct (k a). Qed.

Lemma M_bind_lift_Raise {A B} (r : Res A) (k : A → M B) e :
  r = Raise e → lift r ≫= k = ([], Raise e).
Proof. by intros ->. Qed.

Lemma M_bind_emit {B} ev (k : unit → M B) : emit ev ≫= k = (ev :: (k ()).1, (k ()).2).
Proof. unfold emit, mbind, M_bind. by destruct (k ()). Qed.

Lemma get_box_eval {Comm} (dico : Dico Comm) :
  get_box dico =
  match key_box dico with
  | None => ([LogError msg_no_box], Raise UnboundLocalError)
  | Some box =>
      match declared_bounds box with
      | None => ([LogError msg_no_x], Raise UnboundLocalError)
      | Some rows => ([], arr ← np_asarray_f8 rows; Ok (length rows, arr))
      end
  end.
Proof.
  unfold get_box, declared_bounds.
  destruct dico as [[[[boxx|] [boxy|] [boxz|] lab]|] elems comm]; try reflexivity;
    cbn -[np_asarray_f8]; by destruct (np_asarray_f8 _).
Qed.

Lemma foldl_append {A} (l : list A) : ∀ acc, foldl (λ acc x, acc ++ [x]) acc l = acc ++ l.
Proof.
  induction l as [|x l IH]; intros acc; simpl; [by rewrite app_nil_r|].
  rewrite IH, <- app_assoc. done.
Qed.

Lemma getattr_Ok {A} (v : option A) a : getattr v = Ok a ↔ v = Some a.
Proof. destruct v; simpl; split; congruence. Qed.

Lemma dict_getitem_Ok {A} (entry : option A) a : dict_getitem entry = Ok a ↔ entry = Some a.
Proof. destruct entry; simpl; split; congruence. Qed.

Section Constructor.
Context {Comm : Type}.
Variable COMM_WORLD : Comm.
Variable PROC_NULL : Z.
Variable Interface_init : nat → list bool → Comm → Interface.

Local Abbreviation init := (Geometry_init COMM_WORLD PROC_NULL Interface_init).

(** A successful construction, step by step. *)
Lemma Geometry_init_Ok (dico : Dico Comm) tr g :
  init dico = (tr, Ok g) ↔
  ∃ tr0 box tr1 lab0 period,
    get_box dico = (tr0, Ok (dim g, globalbounds g)) ∧
    key_box dico = Some box ∧
    initial_box_label (dim g) (dict_get (key_label box) (LabInt (-1))) = (tr1, Ok (Some lab0)) ∧
    periodicity (dim g) (Some lab0) = Ok period ∧
    interface g = Interface_init (dim g) period (dict_get (key_comm dico) COMM_WORLD) ∧
    split_bounds (globalbounds g) (split (interface g)) (get_coords (interface g))
      = Ok (bounds g) ∧
    interface_labels PROC_NULL (dim g) (interface g) lab0 = Ok (box_label g) ∧
    list_elem g = dict_get (key_elements dico) [] ∧
    tr = tr0 ++ tr1 ++ [NewInterface (dim g) period].
Proof.
  unfold Geometry_init. split.
  - intros H.
    apply M_bind_Ok in H as (tr0 & [d gb] & r1 & Hgb & H & ->).
    apply M_bind_Ok in H as (t1 & box & r2 & [Hbox%dict_getitem_Ok ->]%lift_Ok & H & ->).
    apply M_bind_Ok in H as (tr1 & obl & r3 & Hlab & H & ->).
    apply M_bind_Ok in H as (t2 & period & r4 & [Hper ->]%lift_Ok & H & ->).
    apply M_bind_Ok in H as (t3 & [] & r5 & [= <-] & H & ->).
    apply M_bind_Ok in H as (t4 & b & r6 & [Hsb ->]%lift_Ok & H & ->).
    apply M_bind_Ok in H as (t5 & lab & r7 & [Hga%getattr_Ok ->]%lift_Ok & H & ->).
    apply M_bind_Ok in H as (t6 & lab1 & r8 & [Hil ->]%lift_Ok & H & ->).
    injection H as <- <-. subst obl. simpl.
    exists tr0, box, tr1, lab, period. split_and!; try done.
    all: try (destruct (key_elements dico); simpl; by rewrite ?foldl_append).
    all: by rewrite ?app_nil_r.
  - intros (tr0 & box & tr1 & lab0 & period & Hgb & Hbox & Hlab & Hper & Hitf & Hsb & Hil & Hel & ->).
    rewrite (M_bind_eval _ _ _ _ Hgb). cbv beta iota.
    rewrite (M_bind_lift_Ok _ _ box) by (by apply dict_getitem_Ok).
    rewrite (M_bind_eval _ _ _ _ Hlab).
    rewrite (M_bind_lift_Ok _ _ _ Hper).
    rewrite M_bind_emit. cbv zeta. rewrite <- Hitf.
    rewrite (M_bind_lift_Ok _ _ _ Hsb).
    rewrite (M_bind_lift_Ok _ _ lab0) by done.
    rewrite (M_bind_lift_Ok _ _ _ Hil). simpl.
    f_equal. f_equal. destruct g; simpl in *. f_equal.
    subst. destruct (key_elements dico); simpl; [|done]. by rewrite foldl_append.
Qed.

End Constructor.

(** ** Periodicity *)

Section Periodicity.
Variable lab : list Z.

(** Both faces of axis [d] carry the label [-1]. *)
Local Abbreviation both_minus1 d :=
  (lab !! (2 * d)%nat = Some (-1) ∧ lab !! (2 * d + 1)%nat = Some (-1)).
Local Abbreviation step := (periodicity_step (Some lab)).

Lemma periodicity_test (a b : Z) d :
  lab !! (2 * d)%nat = Some a → lab !! (2 * d + 1)%nat = Some b →
  bool_decide (a = b) && bool_decide (b = -1) = bool_decide (both_minus1 d).
Proof.
  intros -> ->. destruct (decide (a = b)) as [->|Hab].
  - rewrite bool_decide_eq_true_2 by done. simpl. apply bool_decide_ext.
    split; [by intros -> | by intros [_ [= ->]]].
  - rewrite (bool_decide_eq_false_2 (a = b)) by done. simpl. symmetry.
    apply bool_decide_eq_false_2. intros [[= ->] [= ->]]. done.
Qed.

Lemma periodicity_step_unfold i (period : list bool) :
  step i period =
  (a ← getitem lab (2 * i); b ← getitem lab (2 * i + 1);
   if bool_decide (a = b) && bool_decide (b = -1) then setitem period i true else Ok period).
Proof. reflexivity. Qed.

Lemma periodicity_step_Ok i (period period' : list bool) :
  step i period = Ok period' →
  (2 * i + 1 < length lab)%nat ∧ length period' = length period ∧
  period' !! i = (if bool_decide (both_minus1 i) then Some true else period !! i) ∧
  (∀ k, k ≠ i → period' !! k = period !! k).
Proof.
  rewrite periodicity_step_unfold.
  intros (a & Ha%getitem_Ok & (b & Hb%getitem_Ok & H)%Res_bind_Ok)%Res_bind_Ok.
  rewrite (periodicity_test a b i Ha Hb) in H.
  split; [by eapply lookup_lt_Some|].
  destruct (bool_decide (both_minus1 i)).
  - unfold setitem in H. case_decide; [|done]. injection H as <-.
    rewrite length_insert. split_and!; [done|by apply list_lookup_insert_eq|].
    intros k Hk. by apply list_lookup_insert_ne.
  - by injection H as <-.
Qed.

Lemma periodicity_step_total i (period : list bool) :
  (2 * i + 1 < length lab)%nat → (i < length period)%nat →
  ∃ period', step i period = Ok period'.
Proof.
  intros Hi Hp. rewrite periodicity_step_unfold.
  destruct (lookup_lt_is_Some_2 lab (2 * i)) as [a Ha]; [lia|].
  destruct (lookup_lt_is_Some_2 lab (2 * i + 1)) as [b Hb]; [lia|].
  rewrite (getitem_Some _ _ _ Ha). res_step. rewrite (getitem_Some _ _ _ Hb). res_step.
  destruct (_ && _); [rewrite setitem_Ok by done|]; eauto.
Qed.

Lemma periodicity_step_short i (period : list bool) :
  (length lab ≤ 2 * i + 1)%nat → step i period = Raise IndexError.
Proof.
  intros Hi. rewrite periodicity_step_unfold. unfold getitem.
  destruct (lab !! (2 * i)%nat) as [a|] eqn:Ha; [|done]. res_step.
  rewrite (lookup_ge_None_2 lab (2 * i + 1)) by lia. done.
Qed.

Lemma periodicity_loop_Ok n : ∀ s (period period' : list bool),
  for_range_from s n step period = Ok period' →
  ((0 < n)%nat → (2 * (s + n) ≤ length lab)%nat) ∧
  length period' = length period ∧
  (∀ d, (s ≤ d < s + n)%nat →
     period' !! d = if bool_decide (both_minus1 d) then Some true else period !! d) ∧
  (∀ k, (k < s ∨ s + n ≤ k)%nat → period' !! k = period !! k).
Proof.
  induction n as [|n IH]; intros s period period'; cbn [for_range_from].
  - intros [= <-]. split_and!; try done; intros; lia.
  - intros (p1 & Hstep & Hloop)%Res_bind_Ok.
    destruct (periodicity_step_Ok _ _ _ Hstep) as (Hlen & L1 & Hi & Ho).
    destruct (IH _ _ _ Hloop) as (Hlen' & L2 & Hd & Hk).
    split_and!.
    + intros _. destruct n; [lia|]. specialize (Hlen' ltac:(lia)). lia.
    + congruence.
    + intros d Hr. destruct (decide (d = s)) as [->|].
      * rewrite Hk by lia. done.
      * rewrite Hd by lia. rewrite Ho by done. done.
    + intros k Hr. rewrite Hk by lia. apply Ho. lia.
Qed.

Lemma periodicity_loop_total n : ∀ s (period : list bool),
  (2 * (s + n) ≤ length lab)%nat → (s + n ≤ length period)%nat →
  ∃ period', for_range_from s n step period = Ok period'.
Proof.
  induction n as [|n IH]; intros s period Hl Hp; cbn [for_range_from]; [eauto|].
  destruct (periodicity_step_total s period) as [p1 Hstep]; [lia..|].
  rewrite Hstep. res_step. apply IH; [lia|].
  apply periodicity_step_Ok in Hstep as (_ & -> & _). lia.
Qed.

Lemma periodicity_loop_short n : ∀ s (period : list bool),
  (0 < n)%nat → (length lab < 2 * (s + n))%nat → (s + n ≤ length period)%nat →
  for_range_from s n step period = Raise IndexError.
Proof.
  induction n as [|n IH]; intros s period Hn Hl Hp; [lia|]. cbn [for_range_from].
  destruct (decide (2 * s + 1 < length lab)%nat) as [Hs|Hs].
  - destruct (periodicity_step_total s period) as [p1 Hstep]; [lia..|].
    rewrite Hstep. res_step. apply IH; [lia..|].
    apply periodicity_step_Ok in Hstep as (_ & -> & _). lia.
  - rewrite periodicity_step_short by lia. done.
Qed.

Lemma periodicity_Ok dim (period : list bool) :
  periodicity dim (Some lab) = Ok period →
  length period = dim ∧
  ∀ d, (d < dim)%nat → period !! d = Some (bool_decide (both_minus1 d)).
Proof.
  unfold periodicity, for_xrange. intros H.
  apply periodicity_loop_Ok in H as (_ & L & Hd & _).
  rewrite length_replicate in L. split; [done|].
  intros d Hlt. rewrite Hd by lia. rewrite lookup_replicate_2 by done.
  by destruct (bool_decide _).
Qed.

Lemma periodicity_total dim :
  (2 * dim ≤ length lab)%nat → ∃ period, periodicity dim (Some lab) = Ok period.
Proof.
  intros Hl. apply periodicity_loop_total; [lia|]. rewrite length_replicate. lia.
Qed.

Lemma periodicity_short dim :
  (length lab < 2 * dim)%nat → periodicity dim (Some lab) = Raise IndexError.
Proof.
  intros Hl. apply periodicity_loop_short; [lia..|]. rewrite length_replicate. lia.
Qed.

End Periodicity.

(** ** The constructor, from the dictionary to the instance *)

Section ConstructorFacts.
Context {Comm : Type}.
Variable COMM_WORLD : Comm.
Variable PROC_NULL : Z.
Variable Interface_init : nat → list bool → Comm → Interface.

Local Abbreviation init := (Geometry_init COMM_WORLD PROC_NULL Interface_init).

(** The outcome of the constructor once the box and the label are read. *)
Lemma Geometry_init_eval (dico : Dico Comm) tr0 d gb box tr1 lab0 :
  get_box dico = (tr0, Ok (d, gb)) →
  key_box dico = Some box →
  initial_box_label d (dict_get (key_label box) (LabInt (-1))) = (tr1, Ok (Some lab0)) →
  init dico =
  match periodicity d (Some lab0) with
  | Raise e => (tr0 ++ tr1, Raise e)
  | Ok period =>
      let itf := Interface_init d period (dict_get (key_comm dico) COMM_WORLD) in
      (tr0 ++ tr1 ++ [NewInterface d period],
       b ← split_bounds gb (split itf) (get_coords itf);
       lab1 ← interface_labels PROC_NULL d itf lab0;
       Ok {| dim := d; globalbounds := gb; bounds := b; box_label := lab1;
             list_elem := dict_get (key_elements dico) []; interface := itf |})
  end.
Proof.
  intros Hgb Hbox Hlab. unfold Geometry_init.
  rewrite (M_bind_eval _ _ _ _ Hgb). cbv beta iota.
  rewrite (M_bind_lift_Ok _ _ box) by (by apply dict_getitem_Ok).
  rewrite (M_bind_eval _ _ _ _ Hlab).
  destruct (periodicity d (Some lab0)) as [period|e].
  - rewrite (M_bind_lift_Ok _ _ period eq_refl). rewrite M_bind_emit. cbv zeta.
    set (itf := Interface_init d period _).
    destruct (split_bounds gb (split itf) (get_coords itf)) as [b|e].
    + rewrite (M_bind_lift_Ok _ _ b eq_refl).
      rewrite (M_bind_lift_Ok _ _ lab0) by done.
      destruct (interface_labels PROC_NULL d itf lab0) as [lab1|e].
      * rewrite (M_bind_lift_Ok _ _ lab1 eq_refl). simpl. do 3 f_equal.
        destruct (key_elements dico); simpl; [|done]. by rewrite foldl_append.
      * rewrite (M_bind_lift_Raise _ _ e eq_refl). simpl. done.
    + rewrite (M_bind_lift_Raise _ _ e eq_refl). simpl. done.
  - rewrite (M_bind_lift_Raise _ _ e eq_refl). simpl. by rewrite app_nil_r.
Qed.

End ConstructorFacts.

Lemma initial_box_label_list (d : nat) (l : list Z) :
  initial_box_label d (LabList l) =
  (if decide (length l = (2 * d)%nat) then [] else [LogError msg_label_size], Ok (Some l)).
Proof.
  unfold initial_box_label. destruct (decide (length l = (2 * d)%nat)) as [Heq|Hne].
  - rewrite decide_False by (intros Hn; by apply Hn). reflexivity.
  - rewrite decide_True by done. reflexivity.
Qed.

Lemma np_asarray_f8_Ok (rows : list (list PyNum)) gb :
  np_asarray_f8 rows = Ok gb →
  gb = map (map to_f8) rows ∧ ∃ n, Forall (λ row, length row = n) rows.
Proof.
  unfold np_asarray_f8. destruct rows as [|r rs].
  - intros [= <-]. split; [done|]. exists 0%nat. constructor.
  - destruct (forallb _ rs) eqn:Hall; [|done].
    destruct (forallb _ (r :: rs)); [|done]. intros [= <-]. split; [done|].
    exists (length r). constructor; [done|].
    apply Forall_forall. intros row Hrow.
    rewrite forallb_forall in Hall. apply Nat.eqb_eq, Hall. by apply list_elem_of_In.
Qed.

Lemma forallb_fits_f8 (rows : list (list PyNum)) :
  forallb (forallb fits_f8) rows = true ↔ Forall (Forall (λ x, fits_f8 x = true)) rows.
Proof.
  rewrite forallb_forall, Forall_forall. split.
  - intros Hall row Hrow%list_elem_of_In. apply Forall_forall.
    intros x Hx%list_elem_of_In. specialize (Hall row Hrow). rewrite forallb_forall in Hall. auto.
  - intros Hall row Hrow%list_elem_of_In. apply forallb_forall.
    intros x Hx%list_elem_of_In. specialize (Hall row Hrow). rewrite Forall_forall in Hall. auto.
Qed.

Lemma np_asarray_f8_fits (rows : list (list PyNum)) gb :
  np_asarray_f8 rows = Ok gb → Forall (Forall (λ x, fits_f8 x = true)) rows.
Proof.
  unfold np_asarray_f8. destruct rows as [|r rs]; [constructor|].
  destruct (forallb _ rs); [|done].
  destruct (forallb _ (r :: rs)) eqn:Hfit; [|done]. intros _. by apply forallb_fits_f8.
Qed.

Lemma declared_bounds_length (box : Box) rows :
  declared_bounds box = Some rows → (1 ≤ length rows ≤ 3)%nat.
Proof.
  unfold declared_bounds.
  destruct (key_x box); [|done]. destruct (key_y box); [destruct (key_z box)|];
    intros [= <-]; simpl; lia.
Qed.

Lemma get_box_Ok {Comm} (dico : Dico Comm) tr0 d gb :
  get_box dico = (tr0, Ok (d, gb)) →
  tr0 = [] ∧ ∃ box rows,
    key_box dico = Some box ∧ declared_bounds box = Some rows ∧
    d = length rows ∧ np_asarray_f8 rows = Ok gb.
Proof.
  rewrite get_box_eval. destruct (key_box dico) as [box|]; [|done].
  destruct (declared_bounds box) as [rows|] eqn:Hrows; [|done].
  destruct (np_asarray_f8 rows) as [arr|e] eqn:Harr; [|done].
  res_step. intros [= <- <- <-]. split; [done|]. by exists box, rows.
Qed.

Lemma getcol_Ok_inv {F} (a : ndarray F) j col :
  getcol a j = Ok col → Forall (λ row, j < length row)%nat a.
Proof.
  unfold getcol. revert col. induction a as [|row a IH]; intros col; [constructor|].
  cbn [mapM]. intros (x & Hx%getitem_Ok & (k & Hk & _)%Res_bind_Ok)%Res_bind_Ok.
  constructor; [by eapply lookup_lt_Some | by eapply IH].
Qed.

Lemma split_bounds_Ok_rows {F} `{Dtype F} (a : ndarray F) sp co local :
  split_bounds a sp co = Ok local → Forall (λ row, 2 ≤ length row)%nat a.
Proof.
  unfold split_bounds. intros (hi & Hhi%getcol_Ok_inv & _)%Res_bind_Ok.
  eapply Forall_impl; [exact Hhi|]. simpl. lia.
Qed.

(** C6. When the constructor succeeds, the periodicity vector it passes to
    [Interface] has one entry per axis, and axis [d] is periodic exactly when
    the two labels [lab0[2d]] and [lab0[2d+1]] are [-1], where [lab0] is the
    [box_label] read from the dictionary, before the interface override
    turns it into the final [box_label]. The vector is a function of the
    dictionary alone: any other process topology is handed the same one. *)
Theorem periodicity_before_override {Comm : Type} (COMM_WORLD : Comm) (PROC_NULL : Z)
    (Interface_init : nat → list bool → Comm → Interface) (dico : Dico Comm) tr g :
  Geometry_init COMM_WORLD PROC_NULL Interface_init dico = (tr, Ok g) →
  ∃ box tr1 lab0 period,
    key_box dico = Some box ∧
    initial_box_label (dim g) (dict_get (key_label box) (LabInt (-1))) = (tr1, Ok (Some lab0)) ∧
    length period = dim g ∧
    (∀ d, (d < dim g)%nat →
       period !! d = Some (bool_decide (lab0 !! (2 * d)%nat = Some (-1) ∧
                                        lab0 !! (2 * d + 1)%nat = Some (-1)))) ∧
    NewInterface (dim g) period ∈ tr ∧
    interface g = Interface_init (dim g) period (dict_get (key_comm dico) COMM_WORLD) ∧
    interface_labels PROC_NULL (dim g) (interface g) lab0 = Ok (box_label g) ∧
    ∀ (COMM_WORLD' : Comm) (PROC_NULL' : Z)
      (Interface_init' : nat → list bool → Comm → Interface) tr' g',
      Geometry_init COMM_WORLD' PROC_NULL' Interface_init' dico = (tr', Ok g') →
      dim g' = dim g ∧ NewInterface (dim g) period ∈ tr' ∧
      interface g' = Interface_init' (dim g) period (dict_get (key_comm dico) COMM_WORLD').
Proof.
  intros (tr0 & box & tr1 & lab0 & period & Hgb & Hbox & Hlab & Hper & Hitf & Hsb & Hil & Hel & ->)
    %Geometry_init_Ok.
  destruct (periodicity_Ok _ _ _ Hper) as [Hlen Hd].
  exists box, tr1, lab0, period. split_and!; try done.
  - rewrite !elem_of_app, list_elem_of_singleton. auto.
  - intros W' P' I' tr' g'
      (tr0' & box' & tr1' & lab0' & period' & Hgb' & Hbox' & Hlab' & Hper' & Hitf' & _ & _ & _ & ->)
      %Geometry_init_Ok.
    rewrite Hgb in Hgb'. injection Hgb' as <- Hdim Hgbs.
    rewrite Hbox in Hbox'. injection Hbox' as <-.
    rewrite <- Hdim in *. rewrite Hlab in Hlab'. injection Hlab' as <- <-.
    rewrite Hper in Hper'. injection Hper' as <-.
    split_and!; [done| |done].
    rewrite !elem_of_app, list_elem_of_singleton. auto.
Qed.

Lemma periodicity_before_override_witness :
  let dico := box_only {| key_x := Some [PyInt (-1); PyInt 2]; key_y := None; key_z := None;
                          key_label := Some (LabList [-1; -1]) |} in
  ∃ g, Geometry_init () a_PROC_NULL single_process dico = ([NewInterface 1 [true]], Ok g) ∧
  ∃ box tr1 lab0 period,
    key_box dico = Some box ∧
    initial_box_label (dim g) (dict_get (key_label box) (LabInt (-1))) = (tr1, Ok (Some lab0)) ∧
    length period = dim g ∧
    (∀ d, (d < dim g)%nat →
       period !! d = Some (bool_decide (lab0 !! (2 * d)%nat = Some (-1) ∧
                                        lab0 !! (2 * d + 1)%nat = Some (-1)))) ∧
    NewInterface (dim g) period ∈ [NewInterface 1 [true]] ∧
    interface g = single_process (dim g) period (dict_get (key_comm dico) ()) ∧
    interface_labels a_PROC_NULL (dim g) (interface g) lab0 = Ok (box_label g) ∧
    ∀ (COMM_WORLD' : unit) (PROC_NULL' : Z)
      (Interface_init' : nat → list bool → unit → Interface) tr' g',
      Geometry_init COMM_WORLD' PROC_NULL' Interface_init' dico = (tr', Ok g') →
      dim g' = dim g ∧ NewInterface (dim g) period ∈ tr' ∧
      interface g' = Interface_init' (dim g) period (dict_get (key_comm dico) COMM_WORLD').
Proof.
  intros dico.
  assert (Hrun : ∃ g, Geometry_init () a_PROC_NULL single_process dico
                      = ([NewInterface 1 [true]], Ok g)) by (eexists; vm_compute; reflexivity).
  destruct Hrun as [g Hrun]. exists g. split; [exact Hrun|].
  exact (periodicity_before_override () a_PROC_NULL single_process dico _ g Hrun).
Defined.

(** C1, as the code has it. When the box is read with dimension [dim] and
    its label is a list [l]: the list is taken as it is as the [box_label]
    that precedes the override, whatever its length, and the only effect of
    a length other than [2*dim] is the message passed to [log.error]. If
    [l] has fewer than [2*dim] entries the periodicity loop then raises
    [IndexError], before [Interface] is called. If [l] has at least [2*dim]
    entries the constructor goes on: it calls [Interface], and its outcome
    is that of the decomposition, with the override of [l] as [box_label]. *)
Theorem label_list_taken_verbatim {Comm : Type} (COMM_WORLD : Comm) (PROC_NULL : Z)
    (Interface_init : nat → list bool → Comm → Interface)
    (dico : Dico Comm) (box : Box) tr0 (dim : nat) gb (l : list Z) :
  get_box dico = (tr0, Ok (dim, gb)) →
  key_box dico = Some box →
  key_label box = Some (LabList l) →
  let said := if decide (length l = (2 * dim)%nat) then [] else [LogError msg_label_size] in
  tr0 = [] ∧
  initial_box_label dim (LabList l) = (said, Ok (Some l)) ∧
  ((length l < 2 * dim)%nat →
     Geometry_init COMM_WORLD PROC_NULL Interface_init dico
     = ([LogError msg_label_size], Raise IndexError)) ∧
  ((2 * dim ≤ length l)%nat →
     ∃ period lab1,
       periodicity dim (Some l) = Ok period ∧
       let itf := Interface_init dim period (dict_get (key_comm dico) COMM_WORLD) in
       interface_labels PROC_NULL dim itf l = Ok lab1 ∧
       Geometry_init COMM_WORLD PROC_NULL Interface_init dico
       = (said ++ [NewInterface dim period],
          b ← split_bounds gb (split itf) (get_coords itf);
          Ok {| dim := dim; globalbounds := gb; bounds := b; box_label := lab1;
                list_elem := dict_get (key_elements dico) []; interface := itf |})).
Proof.
  intros Hgb Hbox Hlab said.
  destruct (get_box_Ok _ _ _ _ Hgb) as [-> _].
  pose proof (initial_box_label_list dim l) as Hinit. fold said in Hinit.
  assert (Hinit' : initial_box_label dim (dict_get (key_label box) (LabInt (-1)))
                   = (said, Ok (Some l))) by (by rewrite Hlab).
  pose proof (Geometry_init_eval COMM_WORLD PROC_NULL Interface_init
                dico _ _ _ _ _ _ Hgb Hbox Hinit') as Hrun.
  split_and!; [done|done| |].
  - intros Hshort. rewrite Hrun, (periodicity_short l dim Hshort).
    unfold said. rewrite decide_False by lia. done.
  - intros Hlong. destruct (periodicity_total l dim Hlong) as [period Hper].
    rewrite Hper in Hrun. cbv zeta in Hrun.
    destruct (interface_loop_total PROC_NULL
                (Interface_init dim period (dict_get (key_comm dico) COMM_WORLD))
                dim 0 l ltac:(lia)) as [lab1 Hil].
    exists period, lab1. split; [done|]. cbv zeta. split; [exact Hil|].
    rewrite Hrun. f_equal.
    destruct (split_bounds _ _ _) as [b|e]; [|done]. res_step.
    unfold interface_labels, for_xrange. rewrite Hil. done.
Qed.

Lemma label_list_taken_verbatim_witness :
  let box := {| key_x := Some [PyInt 0; PyInt 2]; key_y := Some [PyInt 0; PyInt 1];
                key_z := None; key_label := Some (LabList [1; 1; 1; 1; 7]) |} in
  let dim := 2%nat in
  let gb := [[0%float; 2%float]; [0%float; 1%float]] in
  let l := [1; 1; 1; 1; 7] in
  let said := if decide (length l = (2 * dim)%nat) then [] else [LogError msg_label_size] in
  get_box (box_only box) = ([], Ok (dim, gb)) ∧
  initial_box_label dim (LabList l) = (said, Ok (Some l)) ∧
  ((length l < 2 * dim)%nat →
     Geometry_init () a_PROC_NULL two_along_x (box_only box)
     = ([LogError msg_label_size], Raise IndexError)) ∧
  ((2 * dim ≤ length l)%nat →
     ∃ period lab1,
       periodicity dim (Some l) = Ok period ∧
       let itf := two_along_x dim period (dict_get (key_comm (box_only box)) ()) in
       interface_labels a_PROC_NULL dim itf l = Ok lab1 ∧
       Geometry_init () a_PROC_NULL two_along_x (box_only box)
       = (said ++ [NewInterface dim period],
          b ← split_bounds gb (split itf) (get_coords itf);
          Ok {| dim := dim; globalbounds := gb; bounds := b; box_label := lab1;
                list_elem := dict_get (key_elements (box_only box)) []; interface := itf |})).
Proof.
  intros box dim gb l said.
  assert (Hgb : get_box (box_only box) = ([], Ok (dim, gb))) by (vm_compute; reflexivity).
  split; [exact Hgb|].
  exact (proj2 (label_list_taken_verbatim () a_PROC_NULL two_along_x (box_only box) box
                  [] dim gb l Hgb eq_refl eq_refl)).
Defined.

(** C1 as stated fails: a label list of length 3 on a one-dimensional box
    ([2*dim = 2]) raises nothing; the constructor logs the error and returns
    a geometry whose [box_label] is that list. *)
Lemma long_label_list_accepted :
  let dico := box_only {| key_x := Some [PyInt (-1); PyInt 2]; key_y := None; key_z := None;
                          key_label := Some (LabList [1; 1; 1]) |} in
  ∃ g, Geometry_init () a_PROC_NULL single_process dico
       = ([LogError msg_label_size; NewInterface 1 [false]], Ok g) ∧
       dim g = 1%nat ∧ length [1; 1; 1] ≠ (2 * dim g)%nat ∧ box_label g = [1; 1; 1].
Proof.
  intros dico. eexists. split; [vm_compute; reflexivity|]. simpl. split_and!; [done|lia|done].
Qed.




(** * Further properties of the code *)

(** ** The decomposition across neighbouring processes *)

Lemma lookup_rows_2 {F} (a : ndarray F) d :
  Forall (λ row, 2 ≤ length row)%nat a → (d < length a)%nat →
  ∃ lo hi rest, a !! d = Some (lo :: hi :: rest).
Proof.
  intros Hrows Hd. destruct (lookup_lt_is_Some_2 a d Hd) as [row Hrow].
  pose proof (Forall_lookup_1 _ _ _ _ Hrows Hrow) as Hlen. simpl in Hlen.
  destruct row as [|lo [|hi rest]]; simpl in Hlen; [lia..|]. eauto.
Qed.

(** X1. Two processes that are neighbours along axis [d] (coordinates [c]
    and [c + 1]) and decompose the same global bounds with the same split
    factors get sub-boxes that meet exactly: the high bound of the first on
    axis [d] is the very binary64 value that is the low bound of the second,
    so there is neither a gap nor an overlap between them. *)
Theorem neighbours_share_their_face (globalbounds : ndarray float)
    (split coords coords' : list Z) (d : nat) (c : Z) :
  Forall (λ row, 2 ≤ length row)%nat globalbounds →
  length split = length globalbounds →
  length coords = length globalbounds →
  length coords' = length globalbounds →
  coords !! d = Some c → coords' !! d = Some (c + 1) →
  ∃ local local' low high high' rest,
    split_bounds globalbounds split coords = Ok local ∧
    split_bounds globalbounds split coords' = Ok local' ∧
    local !! d = Some (low :: high :: rest) ∧
    local' !! d = Some (high :: high' :: rest).
Proof.
  intros Hrows Hs Hc Hc' Hd Hd'.
  destruct (split_bounds_rows globalbounds split coords Hrows Hs Hc) as (local & Hrun & _ & Hrow).
  destruct (split_bounds_rows globalbounds split coords' Hrows Hs Hc') as (local' & Hrun' & _ & Hrow').
  assert (Hlt : (d < length globalbounds)%nat) by (rewrite <- Hc; by eapply lookup_lt_Some).
  destruct (lookup_rows_2 globalbounds d Hrows Hlt) as (lo & hi & rest & Hgb).
  destruct (lookup_lt_is_Some_2 split d) as [s Hsd]; [lia|].
  specialize (Hrow d lo hi rest s c Hgb Hsd Hd).
  specialize (Hrow' d lo hi rest s (c + 1) Hgb Hsd Hd').
  do 6 eexists. split_and!; [exact Hrun | exact Hrun' | exact Hrow | exact Hrow'].
Qed.

Lemma neighbours_share_their_face_witness :
  ∃ local local' low high high' rest,
    split_bounds [[0%float; 1%float]; [0%float; 1%float]] [3; 1] [0; 0] = Ok local ∧
    split_bounds [[0%float; 1%float]; [0%float; 1%float]] [3; 1] [1; 0] = Ok local' ∧
    local !! 0%nat = Some (low :: high :: rest) ∧
    local' !! 0%nat = Some (high :: high' :: rest).
Proof.
  apply (neighbours_share_their_face [[0%float; 1%float]; [0%float; 1%float]]
           [3; 1] [0; 0] [1; 0] 0 0); [repeat constructor | reflexivity..].
Defined.

(** X2. In binary64, the process of coordinate 0 along an axis starts at
    the global low bound of the axis, bitwise, and ends one step above it,
    whatever the split factor, as long as the step [(hi - lo) / split[d]] is
    finite; the only exception to the bitwise equality is a global low bound
    [-0.0], which may come out as [+0.0]. *)
Theorem first_process_starts_at_global_low (globalbounds : ndarray float)
    (split coords : list Z) (d : nat) (lo hi : float) (rest : list float) (s : Z) :
  Forall (λ row, 2 ≤ length row)%nat globalbounds →
  length split = length globalbounds →
  length coords = length globalbounds →
  globalbounds !! d = Some (lo :: hi :: rest) →
  split !! d = Some s → coords !! d = Some 0 →
  is_finite64 ((hi - lo) / Z2f8 s)%float = true →
  ∃ local low,
    split_bounds globalbounds split coords = Ok local ∧
    local !! d = Some (low :: (lo + (hi - lo) / Z2f8 s)%float :: rest) ∧
    (low = lo ∨ (lo = (-0)%float ∧ low = 0%float)).
Proof.
  intros Hrows Hs Hc Hgb Hsd Hcd Hfin.
  destruct (split_bounds_rows globalbounds split coords Hrows Hs Hc) as (local & Hrun & _ & Hrow).
  specialize (Hrow d lo hi rest s 0 Hgb Hsd Hcd). cbn [fadd fsub fmul fdiv of_int f8] in Hrow.
  change (Z2f8 (0 + 1)) with 1%float in Hrow. rewrite f8_mul_1 in Hrow.
  do 2 eexists. split_and!; [exact Hrun | exact Hrow |].
  by apply f8_add_mul_0.
Qed.

Lemma first_process_starts_at_global_low_witness :
  is_finite64 ((1 - 0) / Z2f8 3)%float = true ∧
  ∃ local low,
    split_bounds [[0%float; 1%float]] [3] [0] = Ok local ∧
    local !! 0%nat = Some [low; (0 + (1 - 0) / Z2f8 3)%float] ∧
    (low = 0%float ∨ (0%float = (-0)%float ∧ low = 0%float)).
Proof.
  assert (Hfin : is_finite64 ((1 - 0) / Z2f8 3)%float = true) by (vm_compute; reflexivity).
  split; [exact Hfin|].
  apply (first_process_starts_at_global_low [[0%float; 1%float]] [3] [0] 0 0%float 1%float [] 3);
    [repeat constructor | reflexivity.. | exact Hfin].
Defined.

(** ** Reading the box *)

Lemma np_asarray_f8_same_length (rows : list (list PyNum)) n :
  Forall (λ row, length row = n) rows →
  Forall (Forall (λ x, fits_f8 x = true)) rows →
  np_asarray_f8 rows = Ok (map (map to_f8) rows).
Proof.
  intros Hn Hfit. unfold np_asarray_f8. destruct rows as [|r rs]; [done|].
  rewrite (proj2 (forallb_fits_f8 (r :: rs)) Hfit).
  apply Forall_cons in Hn as [Hr Hrs].
  replace (forallb _ rs) with true; [done|]. symmetry. apply forallb_forall.
  intros r' Hr'%list_elem_of_In. rewrite Forall_forall in Hrs.
  apply Nat.eqb_eq. rewrite (Hrs r' Hr'). done.
Qed.

Lemma np_asarray_f8_Raise (rows : list (list PyNum)) e :
  np_asarray_f8 rows = Raise e →
  (e = ValueError ∧ ¬ ∃ n, Forall (λ row, length row = n) rows) ∨
  (e = OverflowError ∧ (∃ n, Forall (λ row, length row = n) rows) ∧
   ¬ Forall (Forall (λ x, fits_f8 x = true)) rows).
Proof.
  intros Hrun. unfold np_asarray_f8 in Hrun. destruct rows as [|r rs]; [done|].
  destruct (forallb _ rs) eqn:Hall.
  - assert (Hn : Forall (λ row, length row = length r) (r :: rs)).
    { constructor; [done|]. apply Forall_forall. intros row Hrow.
      rewrite forallb_forall in Hall. apply Nat.eqb_eq, Hall. by apply list_elem_of_In. }
    destruct (forallb _ (r :: rs)) eqn:Hfit; [done|].
    right. split_and!; [congruence | by eexists |].
    intros Hfit'%forallb_fits_f8. congruence.
  - left. split; [congruence|]. intros [n [Hr Hrs]%Forall_cons].
    assert (Hall' : forallb (λ r', Nat.eqb (length r') (length r)) rs = true); [|congruence].
    apply forallb_forall. intros r' Hr'%list_elem_of_In. rewrite Forall_forall in Hrs.
    apply Nat.eqb_eq. rewrite (Hrs r' Hr'). done.
Qed.

(** X3. [get_box] returns a result exactly when the box has the key ['x'],
    all the intervals it reads have the same number of entries and every
    int among their entries is within the range of binary64; the result is
    then the number of intervals, between 1 and 3, with the intervals
    converted to binary64 in the order x, y, z, and nothing is logged. Every
    other call fails: with [UnboundLocalError], after exactly one logged
    message, when ['box'] or ['x'] is missing; with numpy's [ValueError],
    with nothing logged, when the intervals have different lengths; and
    with [OverflowError], with nothing logged, when the lengths agree and
    an int is out of the range of binary64. No default is ever
    substituted. *)
Theorem get_box_outcomes {Comm : Type} (dico : Dico Comm) tr :
  (∀ d gb,
     get_box dico = (tr, Ok (d, gb)) ↔
     ∃ box rows n,
       key_box dico = Some box ∧ declared_bounds box = Some rows ∧
       Forall (λ row, length row = n) rows ∧
       Forall (Forall (λ x, fits_f8 x = true)) rows ∧
       tr = [] ∧ d = length rows ∧ gb = map (map to_f8) rows) ∧
  (∀ d gb, get_box dico = (tr, Ok (d, gb)) → (1 ≤ d ≤ 3)%nat ∧ length gb = d) ∧
  (∀ e,
     get_box dico = (tr, Raise e) →
     (e = UnboundLocalError ∧ tr = [LogError msg_no_box] ∧ key_box dico = None) ∨
     (e = UnboundLocalError ∧ tr = [LogError msg_no_x] ∧
      ∃ box, key_box dico = Some box ∧ key_x box = None) ∨
     (e = ValueError ∧ tr = [] ∧
      ∃ box rows, key_box dico = Some box ∧ declared_bounds box = Some rows ∧
                  ¬ ∃ n, Forall (λ row, length row = n) rows) ∨
     (e = OverflowError ∧ tr = [] ∧
      ∃ box rows, key_box dico = Some box ∧ declared_bounds box = Some rows ∧
                  (∃ n, Forall (λ row, length row = n) rows) ∧
                  ¬ Forall (Forall (λ x, fits_f8 x = true)) rows)).
Proof.
  assert (Hiff : ∀ d gb,
     get_box dico = (tr, Ok (d, gb)) ↔
     ∃ box rows n,
       key_box dico = Some box ∧ declared_bounds box = Some rows ∧
       Forall (λ row, length row = n) rows ∧
       Forall (Forall (λ x, fits_f8 x = true)) rows ∧
       tr = [] ∧ d = length rows ∧ gb = map (map to_f8) rows).
  { intros d gb. split.
    - intros Hrun. destruct (get_box_Ok _ _ _ _ Hrun) as (-> & box & rows & Hbox & Hrows & -> & Harr).
      pose proof (np_asarray_f8_fits _ _ Harr) as Hfit.
      destruct (np_asarray_f8_Ok _ _ Harr) as (-> & n & Hn). by exists box, rows, n.
    - intros (box & rows & n & Hbox & Hrows & Hn & Hfit & -> & -> & ->).
      rewrite get_box_eval, Hbox, Hrows, (np_asarray_f8_same_length rows n Hn Hfit). done. }
  split_and!; [exact Hiff| |].
  - intros d gb (box & rows & n & _ & Hrows & _ & _ & _ & -> & ->)%Hiff.
    rewrite length_map. split; [by eapply declared_bounds_length|done].
  - intros e. rewrite get_box_eval.
    destruct (key_box dico) as [box|] eqn:Hbox; [|intros [= <- <-]; by left].
    destruct (declared_bounds box) as [rows|] eqn:Hrows.
    + destruct (np_asarray_f8 rows) as [arr|e'] eqn:Harr; [done|].
      intros [= <- <-]. right. right.
      destruct (np_asarray_f8_Raise _ _ Harr) as [[-> Hn]|(-> & Hn & Hfit)].
      * left. split_and!; [done..|]. by exists box, rows.
      * right. split_and!; [done..|]. by exists box, rows.
    + intros [= <- <-]. right. left. split_and!; [done..|]. exists box. split; [done|].
      unfold declared_bounds in Hrows. by destruct (key_x box).
Qed.

Lemma get_box_outcomes_witness :
  let square := {| key_x := Some [PyInt 0; PyInt 2]; key_y := Some [PyInt 0; PyInt 1];
                   key_z := None; key_label := None |} in
  let ragged := {| key_x := Some [PyInt 0; PyInt 2]; key_y := Some [PyInt 0];
                   key_z := None; key_label := None |} in
  let huge := {| key_x := Some [PyInt 0; PyInt (10 ^ 400)]; key_y := None;
                 key_z := None; key_label := None |} in
  get_box (box_only square) = ([], Ok (2%nat, [[0%float; 2%float]; [0%float; 1%float]])) ∧
  ((1 ≤ 2 ≤ 3)%nat ∧ length [[0%float; 2%float]; [0%float; 1%float]] = 2%nat) ∧
  get_box (box_only ragged) = ([], Raise ValueError) ∧
  get_box (box_only huge) = ([], Raise OverflowError) ∧
  ((OverflowError = UnboundLocalError ∧ [] = [LogError msg_no_box] ∧
    key_box (box_only huge) = None) ∨
   (OverflowError = UnboundLocalError ∧ [] = [LogError msg_no_x] ∧
    ∃ box, key_box (box_only huge) = Some box ∧ key_x box = None) ∨
   (OverflowError = ValueError ∧ @nil Event = [] ∧
    ∃ box rows, key_box (box_only huge) = Some box ∧ declared_bounds box = Some rows ∧
                ¬ ∃ n, Forall (λ row, length row = n) rows) ∨
   (OverflowError = OverflowError ∧ @nil Event = [] ∧
    ∃ box rows, key_box (box_only huge) = Some box ∧ declared_bounds box = Some rows ∧
                (∃ n, Forall (λ row, length row = n) rows) ∧
                ¬ Forall (Forall (λ x, fits_f8 x = true)) rows)).
Proof.
  intros square ragged huge.
  assert (Hsq : get_box (box_only square)
                = ([], Ok (2%nat, [[0%float; 2%float]; [0%float; 1%float]])))
    by (vm_compute; reflexivity).
  assert (Hrag : get_box (box_only ragged) = ([], Raise ValueError)) by reflexivity.
  assert (Hhuge : get_box (box_only huge) = ([], Raise OverflowError))
    by (vm_compute; reflexivity).
  split; [exact Hsq|]. split; [|split; [exact Hrag|split; [exact Hhuge|]]].
  - exact (proj1 (proj2 (get_box_outcomes (box_only square) [])) _ _ Hsq).
  - exact (proj2 (proj2 (get_box_outcomes (box_only huge) [])) _ Hhuge).
Defined.

(** ** The label of the box *)

Lemma interface_labels_minus2_or_kept (PROC_NULL : Z) (dim : nat) (itf : Interface)
    (l l' : list Z) :
  interface_labels PROC_NULL dim itf l = Ok l' →
  length l' = length l ∧ ∀ k, l' !! k = l !! k ∨ l' !! k = Some (-2).
Proof.
  unfold interface_labels, for_xrange.
  intros (L & B1 & B0 & A1 & A0 & O)%interface_loop_Ok. split; [done|].
  intros k. destruct (decide (2 * dim ≤ k)%nat) as [Hk|Hk]; [left; apply O; lia|].
  destruct (Nat.Even_or_Odd k) as [[m ->]|[m ->]].
  - destruct (decide ((cartcomm_Shift itf m).1 ≠ PROC_NULL)) as [Hb|Hb].
    + right. apply B1; [lia|done].
    + left. apply B0; [lia|done].
  - destruct (decide ((cartcomm_Shift itf m).2 ≠ PROC_NULL)) as [Ha|Ha].
    + right. apply A1; [lia|done].
    + left. apply A0; [lia|done].
Qed.

Lemma periodicity_replicate (d : nat) (z : Z) :
  periodicity d (Some (replicate (2 * d) z)) = Ok (replicate d (bool_decide (z = -1))).
Proof.
  destruct (periodicity_total (replicate (2 * d) z) d) as [period Hper];
    [by rewrite length_replicate|].
  rewrite Hper. f_equal. destruct (periodicity_Ok _ _ _ Hper) as [Hlen Hd].
  apply list_eq_same_length with d; [by rewrite length_replicate|done|].
  intros i x y Hi Hx Hy. rewrite (Hd i Hi) in Hx.
  rewrite lookup_replicate_2 in Hy by done.
  rewrite !lookup_replicate_2 in Hx by lia.
  injection Hx as <-. injection Hy as <-.
  apply bool_decide_ext. split; [by intros [[= ->] _] | by intros ->].
Qed.

(** X4. When the label of the box is an integer [z], or is absent ([z] is
    then [-1]), a successful construction logs nothing, hands [Interface] the
    periodicity vector whose [dim] entries are all [z == -1] (so a box
    without label is periodic along every axis), and builds a [box_label] of
    exactly [2*dim] entries, each of which is [z] or the interface label
    [-2]. *)
Theorem integer_label_broadcast {Comm : Type} (COMM_WORLD : Comm) (PROC_NULL : Z)
    (Interface_init : nat → list bool → Comm → Interface)
    (dico : Dico Comm) (box : Box) (z : Z) tr g :
  Geometry_init COMM_WORLD PROC_NULL Interface_init dico = (tr, Ok g) →
  key_box dico = Some box →
  dict_get (key_label box) (LabInt (-1)) = LabInt z →
  tr = [NewInterface (dim g) (replicate (dim g) (bool_decide (z = -1)))] ∧
  length (box_label g) = (2 * dim g)%nat ∧
  ∀ k v, box_label g !! k = Some v → v = z ∨ v = -2.
Proof.
  intros (tr0 & box' & tr1 & lab0 & period & Hgb & Hbox' & Hlab & Hper & _ & _ & Hil & _ & ->)
    %Geometry_init_Ok Hbox Hz.
  rewrite Hbox in Hbox'. injection Hbox' as <-. rewrite Hz in Hlab.
  injection Hlab as <- <-. rewrite periodicity_replicate in Hper. injection Hper as <-.
  destruct (get_box_Ok _ _ _ _ Hgb) as [-> _].
  destruct (interface_labels_minus2_or_kept _ _ _ _ _ Hil) as [Hlen Hk].
  split_and!; [done|by rewrite Hlen, length_replicate|].
  intros k v Hv. destruct (Hk k) as [Heq|Heq]; rewrite Heq in Hv.
  - left. apply lookup_replicate in Hv as [-> _]. done.
  - right. by injection Hv as <-.
Qed.

Lemma integer_label_broadcast_witness :
  let box := {| key_x := Some [PyInt 0; PyInt 2]; key_y := Some [PyInt 0; PyInt 1];
                key_z := None; key_label := Some (LabInt 1) |} in
  ∃ g, Geometry_init () a_PROC_NULL two_along_x (box_only box)
       = ([NewInterface 2 [false; false]], Ok g) ∧
       box_label g = [1; -2; 1; 1] ∧
       [NewInterface 2 [false; false]]
       = [NewInterface (dim g) (replicate (dim g) (bool_decide (1 = -1)))] ∧
       length (box_label g) = (2 * dim g)%nat ∧
       ∀ k v, box_label g !! k = Some v → v = 1 ∨ v = -2.
Proof.
  intros box.
  assert (Hrun : ∃ g, Geometry_init () a_PROC_NULL two_along_x (box_only box)
                      = ([NewInterface 2 [false; false]], Ok g) ∧ box_label g = [1; -2; 1; 1])
    by (eexists; split; [vm_compute; reflexivity | reflexivity]).
  destruct Hrun as (g & Hrun & Hlab). exists g. split; [exact Hrun|]. split; [exact Hlab|].
  exact (integer_label_broadcast () a_PROC_NULL two_along_x (box_only box) box 1 _ g
           Hrun eq_refl eq_refl).
Defined.

Lemma periodicity_unset (d : nat) :
  (0 < d)%nat → periodicity d None = Raise AttributeError.
Proof. intros Hd. destruct d; [lia|]. reflexivity. Qed.

(** X5. When the label of the box is neither an integer nor a list ([None]
    given explicitly, or a string), and the box itself is read without
    error, the constructor logs "The labels of the box must be an integer or
    a list", leaves [self.box_label] unassigned and fails with
    [AttributeError] at the first read of it, in the periodicity loop;
    [Interface] is not called. *)
Theorem label_of_wrong_type {Comm : Type} (COMM_WORLD : Comm) (PROC_NULL : Z)
    (Interface_init : nat → list bool → Comm → Interface)
    (dico : Dico Comm) (box : Box) tr0 (d : nat) gb :
  get_box dico = (tr0, Ok (d, gb)) →
  key_box dico = Some box →
  (key_label box = Some LabNone ∨ ∃ s, key_label box = Some (LabStr s)) →
  Geometry_init COMM_WORLD PROC_NULL Interface_init dico
  = ([LogError msg_label_type], Raise AttributeError).
Proof.
  intros Hgb Hbox Hlab.
  destruct (get_box_Ok _ _ _ _ Hgb) as (-> & box' & rows & Hbox' & Hrows & -> & _).
  pose proof (declared_bounds_length _ _ Hrows) as Hd.
  assert (Hinit : initial_box_label (length rows) (dict_get (key_label box) (LabInt (-1)))
                  = ([LogError msg_label_type], Ok None)).
  { destruct Hlab as [->|[s ->]]; reflexivity. }
  unfold Geometry_init.
  rewrite (M_bind_eval _ _ _ _ Hgb). cbv beta iota.
  rewrite (M_bind_lift_Ok _ _ box) by (by apply dict_getitem_Ok).
  rewrite (M_bind_eval _ _ _ _ Hinit).
  rewrite (M_bind_lift_Raise _ _ AttributeError) by (apply periodicity_unset; lia).
  reflexivity.
Qed.

Lemma label_of_wrong_type_witness :
  let box := {| key_x := Some [PyInt 0; PyInt 1]; key_y := None; key_z := None;
                key_label := Some (LabStr "wall") |} in
  get_box (box_only box) = ([], Ok (1%nat, [[0%float; 1%float]])) ∧
  Geometry_init () a_PROC_NULL single_process (box_only box)
  = ([LogError msg_label_type], Raise AttributeError).
Proof.
  intros box.
  assert (Hgb : get_box (box_only box) = ([], Ok (1%nat, [[0%float; 1%float]])))
    by (vm_compute; reflexivity).
  split; [exact Hgb|].
  exact (label_of_wrong_type () a_PROC_NULL single_process (box_only box) box _ _ _
           Hgb eq_refl (or_intror (ex_intro _ "wall" eq_refl))).
Defined.

(** ** The instance that is built *)

Lemma setcol_Ok_inv {F} (a a' : ndarray F) j v :
  setcol a j v = Ok a' →
  length a' = length a ∧ ∀ d row, a !! d = Some row → ∃ x, a' !! d = Some (<[j:=x]> row).
Proof.
  unfold setcol. intros (col & _ & Hset)%Res_bind_Ok. case_decide as Hlen.
  - injection Hset as <-. split; [rewrite length_zip_with; lia|].
    intros d row Hrow. rewrite lookup_zip_with, Hrow. simpl.
    destruct (lookup_lt_is_Some_2 v d) as [x Hx]; [rewrite Hlen; by eapply lookup_lt_Some|].
    rewrite Hx. simpl. eauto.
  - destruct v as [|x [|]]; [done| |done]. injection Hset as <-.
    split; [by rewrite length_map|].
    intros d row Hrow. rewrite list_lookup_fmap, Hrow. simpl. eauto.
Qed.

Lemma split_bounds_Ok_shape {F} `{Dtype F} (a local : ndarray F) sp co :
  split_bounds a sp co = Ok local →
  length local = length a ∧
  ∀ d lo hi rest, a !! d = Some (lo :: hi :: rest) →
                  ∃ lo' hi', local !! d = Some (lo' :: hi' :: rest).
Proof.
  unfold split_bounds.
  intros (hi & _ & (lo & _ & (width & _ & (t & _ & (lo1 & _ & (off1 & _ & (new_hi & _ &
         (a1 & Hset1 & (lo2 & _ & (off0 & _ & (new_lo & _ & Hset0)%Res_bind_Ok)
         %Res_bind_Ok)%Res_bind_Ok)%Res_bind_Ok)%Res_bind_Ok)%Res_bind_Ok)%Res_bind_Ok)
         %Res_bind_Ok)%Res_bind_Ok)%Res_bind_Ok)%Res_bind_Ok.
  destruct (setcol_Ok_inv _ _ _ _ Hset1) as [L1 R1].
  destruct (setcol_Ok_inv _ _ _ _ Hset0) as [L0 R0].
  split; [congruence|].
  intros d l h rest Hd. destruct (R1 _ _ Hd) as [x1 H1]. destruct (R0 _ _ H1) as [x0 H0].
  exists x0, x1. exact H0.
Qed.

(** X6. A geometry that the constructor returns is well shaped: its
    dimension is 1, 2 or 3; [globalbounds] and [bounds] have one row per
    axis; every row of [globalbounds] has at least two entries; [bounds]
    differs from [globalbounds] in the first two entries of each row only;
    and [box_label] has at least [2*dim] entries, so that every face has a
    label. *)
Theorem built_geometry_is_well_shaped {Comm : Type} (COMM_WORLD : Comm) (PROC_NULL : Z)
    (Interface_init : nat → list bool → Comm → Interface) (dico : Dico Comm) tr g :
  Geometry_init COMM_WORLD PROC_NULL Interface_init dico = (tr, Ok g) →
  (1 ≤ dim g ≤ 3)%nat ∧
  length (globalbounds g) = dim g ∧
  length (bounds g) = dim g ∧
  (∀ d row, globalbounds g !! d = Some row →
     ∃ lo hi rest lo' hi', row = lo :: hi :: rest ∧ bounds g !! d = Some (lo' :: hi' :: rest)) ∧
  (2 * dim g ≤ length (box_label g))%nat.
Proof.
  intros (tr0 & box & tr1 & lab0 & period & Hgb & Hbox & _ & Hper & _ & Hsb & Hil & _)
    %Geometry_init_Ok.
  destruct (get_box_Ok _ _ _ _ Hgb) as (_ & box0 & rows & _ & Hdecl & Hd & Harr).
  destruct (np_asarray_f8_Ok _ _ Harr) as [Hmap _].
  assert (Hdim : (1 ≤ dim g ≤ 3)%nat) by (rewrite Hd; by eapply declared_bounds_length).
  assert (Hlen : length (globalbounds g) = dim g) by (by rewrite Hmap, length_map).
  destruct (split_bounds_Ok_shape _ _ _ _ Hsb) as [Hlb Hrows].
  pose proof (split_bounds_Ok_rows _ _ _ _ Hsb) as Hcols.
  split_and!; [lia|lia|done|congruence| |].
  - intros d row Hrow.
    pose proof (Forall_lookup_1 _ _ _ _ Hcols Hrow) as Hrl. simpl in Hrl.
    destruct row as [|lo [|hi rest]]; simpl in Hrl; [lia..|].
    destruct (Hrows _ _ _ _ Hrow) as (lo' & hi' & Hb). by exists lo, hi, rest, lo', hi'.
  - destruct (interface_labels_minus2_or_kept _ _ _ _ _ Hil) as [-> _].
    unfold periodicity, for_xrange in Hper.
    apply periodicity_loop_Ok in Hper as (Hl & _). specialize (Hl ltac:(lia)). lia.
Qed.

Lemma built_geometry_is_well_shaped_witness :
  let box := {| key_x := Some [PyInt 0; PyInt 2]; key_y := Some [PyInt 0; PyInt 1];
                key_z := None; key_label := Some (LabList [1; 2; 3; 4]) |} in
  ∃ g, Geometry_init () a_PROC_NULL two_along_x (box_only box)
       = ([NewInterface 2 [false; false]], Ok g) ∧
  (1 ≤ dim g ≤ 3)%nat ∧
  length (globalbounds g) = dim g ∧
  length (bounds g) = dim g ∧
  (∀ d row, globalbounds g !! d = Some row →
     ∃ lo hi rest lo' hi', row = lo :: hi :: rest ∧ bounds g !! d = Some (lo' :: hi' :: rest)) ∧
  (2 * dim g ≤ length (box_label g))%nat.
Proof.
  intros box.
  assert (Hrun : ∃ g, Geometry_init () a_PROC_NULL two_along_x (box_only box)
                      = ([NewInterface 2 [false; false]], Ok g))
    by (eexists; vm_compute; reflexivity).
  destruct Hrun as [g Hrun]. exists g. split; [exact Hrun|].
  exact (built_geometry_is_well_shaped () a_PROC_NULL two_along_x (box_only box) _ g Hrun).
Defined.

(** X7. The processes of a run agree on everything that does not depend on
    their place in the topology: two successful constructions from the same
    dictionary, whatever the communicator, the value of [PROC_NULL] and the
    object [Interface] returns, log the same messages, call [Interface] with
    the same arguments, and give the same [dim], the same [globalbounds],
    the same [list_elem] and a [box_label] of the same length. *)
Theorem processes_agree_on_the_box {Comm : Type} (dico : Dico Comm)
    (COMM_WORLD COMM_WORLD' : Comm) (PROC_NULL PROC_NULL' : Z)
    (Interface_init Interface_init' : nat → list bool → Comm → Interface) tr g tr' g' :
  Geometry_init COMM_WORLD PROC_NULL Interface_init dico = (tr, Ok g) →
  Geometry_init COMM_WORLD' PROC_NULL' Interface_init' dico = (tr', Ok g') →
  tr' = tr ∧ dim g' = dim g ∧ globalbounds g' = globalbounds g ∧
  list_elem g' = list_elem g ∧ length (box_label g') = length (box_label g).
Proof.
  intros (tr0 & box & tr1 & lab0 & period & Hgb & Hbox & Hlab & Hper & _ & _ & Hil & Hel & ->)
    %Geometry_init_Ok
    (tr0' & box' & tr1' & lab0' & period' & Hgb' & Hbox' & Hlab' & Hper' & _ & _ & Hil' & Hel' & ->)
    %Geometry_init_Ok.
  rewrite Hgb in Hgb'. injection Hgb' as <- Hdim Hgbs.
  rewrite Hbox in Hbox'. injection Hbox' as <-.
  rewrite <- Hdim in *. rewrite Hlab in Hlab'. injection Hlab' as <- <-.
  rewrite Hper in Hper'. injection Hper' as <-.
  apply interface_labels_minus2_or_kept in Hil as [Hl _].
  apply interface_labels_minus2_or_kept in Hil' as [Hl' _].
  split_and!; congruence.
Qed.

Lemma processes_agree_on_the_box_witness :
  let box := {| key_x := Some [PyInt 0; PyInt 2]; key_y := Some [PyInt 0; PyInt 1];
                key_z := None; key_label := Some (LabInt 1) |} in
  ∃ g g', Geometry_init () a_PROC_NULL two_along_x (box_only box)
          = ([NewInterface 2 [false; false]], Ok g) ∧
          Geometry_init () a_PROC_NULL single_process (box_only box)
          = ([NewInterface 2 [false; false]], Ok g') ∧
          box_label g = [1; -2; 1; 1] ∧ box_label g' = [1; 1; 1; 1] ∧
          dim g' = dim g ∧ globalbounds g' = globalbounds g ∧
          list_elem g' = list_elem g ∧ length (box_label g') = length (box_label g).
Proof.
  intros box.
  assert (Hrun : ∃ g, Geometry_init () a_PROC_NULL two_along_x (box_only box)
                      = ([NewInterface 2 [false; false]], Ok g) ∧ box_label g = [1; -2; 1; 1])
    by (eexists; split; [vm_compute; reflexivity | reflexivity]).
  assert (Hrun' : ∃ g', Geometry_init () a_PROC_NULL single_process (box_only box)
                      = ([NewInterface 2 [false; false]], Ok g') ∧ box_label g' = [1; 1; 1; 1])
    by (eexists; split; [vm_compute; reflexivity | reflexivity]).
  destruct Hrun as (g & Hrun & Hlab). destruct Hrun' as (g' & Hrun' & Hlab').
  exists g, g'. split; [exact Hrun|]. split; [exact Hrun'|]. split; [exact Hlab|].
  split; [exact Hlab'|].
  exact (proj2 (processes_agree_on_the_box (box_only box) () () a_PROC_NULL a_PROC_NULL
                  two_along_x single_process _ g _ g' Hrun Hrun')).
Defined.

(** ** Elements *)

(** X8. Giving an element in the dictionary or adding it afterwards is the
    same: if the constructor returns [g] for a dictionary, then for the
    dictionary whose list of elements is extended with [elem] it logs the
    same and returns [add_elem g elem]. The elements of the dictionary are
    stored in the order in which they are given. *)
Theorem element_given_or_added {Comm : Type} (COMM_WORLD : Comm) (PROC_NULL : Z)
    (Interface_init : nat → list bool → Comm → Interface)
    (dico : Dico Comm) (elem : Element) tr g :
  Geometry_init COMM_WORLD PROC_NULL Interface_init dico = (tr, Ok g) →
  list_elem g = dict_get (key_elements dico) [] ∧
  Geometry_init COMM_WORLD PROC_NULL Interface_init
    {| key_box := key_box dico;
       key_elements := Some (dict_get (key_elements dico) [] ++ [elem]);
       key_comm := key_comm dico |}
  = (tr, Ok (add_elem g elem)).
Proof.
  intros Hrun. pose proof Hrun as Hrun'.
  apply Geometry_init_Ok in Hrun'
    as (tr0 & box & tr1 & lab0 & period & Hgb & Hbox & Hlab & Hper & Hitf & Hsb & Hil & Hel & ->).
  split; [exact Hel|].
  apply Geometry_init_Ok. exists tr0, box, tr1, lab0, period. simpl.
  split_and!; try done. by rewrite Hel.
Qed.

Lemma element_given_or_added_witness :
  let box := {| key_x := Some [PyInt 0; PyInt 2]; key_y := Some [PyInt 0; PyInt 1];
                key_z := None; key_label := Some (LabInt 0) |} in
  let circle := {| isfluid := false; label := [7] |} in
  let square := {| isfluid := true; label := [8; 8; 8; 8] |} in
  let dico := {| key_box := Some box; key_elements := Some [circle]; key_comm := None |} in
  ∃ g, Geometry_init () a_PROC_NULL single_process dico
       = ([NewInterface 2 [false; false]], Ok g) ∧
       list_elem g = [circle] ∧
       Geometry_init () a_PROC_NULL single_process
         {| key_box := Some box; key_elements := Some ([circle] ++ [square]);
            key_comm := None |}
       = ([NewInterface 2 [false; false]], Ok (add_elem g square)).
Proof.
  intros box circle square dico.
  assert (Hrun : ∃ g, Geometry_init () a_PROC_NULL single_process dico
                      = ([NewInterface 2 [false; false]], Ok g))
    by (eexists; vm_compute; reflexivity).
  destruct Hrun as [g Hrun]. exists g. split; [exact Hrun|].
  exact (element_given_or_added () a_PROC_NULL single_process dico square _ g Hrun).
Defined.





(** ** The textual report *)

Lemma string_app_assoc (s1 s2 s3 : string) : (s1 +:+ s2) +:+ s3 = s1 +:+ (s2 +:+ s3).
Proof.
  induction s1 as [|c s1 IH]; [done|].
  change (String c ((s1 +:+ s2) +:+ s3) = String c (s1 +:+ (s2 +:+ s3))). by f_equal.
Qed.

Lemma for_range_from_snoc {St} (body : nat → St → Res St) n : ∀ start (s : St),
  for_range_from start (S n) body s
  = (s' ← for_range_from start n body s; body (start + n)%nat s').
Proof.
  induction n as [|n IH]; intros start s.
  - cbn [for_range_from]. rewrite Nat.add_0_r. res_step. by destruct (body start s).
  - change (for_range_from start (S (S n)) body s)
      with (s1 ← body start s; for_range_from (S start) (S n) body s1).
    change (for_range_from start (S n) body s)
      with (s1 ← body start s; for_range_from (S start) n body s1).
    destruct (body start s) as [s1|e]; [|done]. res_step.
    rewrite IH. by replace (S start + n)%nat with (start + S n)%nat by lia.
Qed.

Lemma for_range_from_ext {St} (body body' : nat → St → Res St) n : ∀ start (s : St),
  (∀ i s, (start ≤ i < start + n)%nat → body i s = body' i s) →
  for_range_from start n body s = for_range_from start n body' s.
Proof.
  induction n as [|n IH]; intros start s Hext; cbn [for_range_from]; [done|].
  rewrite Hext by lia. destruct (body' start s) as [s1|e]; [|done]. res_step.
  apply IH. intros i s' Hi. apply Hext. lia.
Qed.

Section StrFacts.
Variable ndarray_str : ndarray float → string.
Variable Element_str : Element → string.

Local Abbreviation line := (element_line Element_str).
Local Abbreviation lines l :=
  (λ k s, elem ← getitem l k; Ok (s +:+ element_line Element_str k elem)).

Lemma element_lines_total (l : list Element) n : ∀ start s,
  (start + n ≤ length l)%nat → ∃ s', for_range_from start n (lines l) s = Ok s'.
Proof.
  induction n as [|n IH]; intros start s Hlen; cbn [for_range_from]; [eauto|].
  destruct (lookup_lt_is_Some_2 l start) as [e He]; [lia|].
  rewrite (getitem_Some _ _ _ He). res_step. apply IH. lia.
Qed.

Lemma Geometry_str_total (self : Geometry) :
  ∃ s, Geometry_str ndarray_str Element_str self = Ok s.
Proof.
  unfold Geometry_str. cbv zeta. case_decide; [|eauto].
  apply element_lines_total. lia.
Qed.

(** X10. [__str__] never fails, and the report of a geometry after
    [add_elem(elem)] is the report before it followed by the line of the
    new element, numbered with the number of elements there were; the line
    "List of elements added or deleted in the box" comes before it when the
    element is the first one, and is absent from the report of a geometry
    without element. *)
Theorem report_after_add_elem (self : Geometry) (elem : Element) :
  ∃ s, Geometry_str ndarray_str Element_str self = Ok s ∧
       Geometry_str ndarray_str Element_str (add_elem self elem)
       = Ok (s +:+ (if decide (list_elem self = []) then elements_title else "")
               +:+ line (length (list_elem self)) elem).
Proof.
  destruct (Geometry_str_total self) as [s Hs]. exists s. split; [exact Hs|].
  unfold Geometry_str in *. cbv zeta in *.
  cbn [add_elem dim bounds list_elem]. rewrite length_app. cbn [length].
  rewrite (decide_True (P := (length (list_elem self) + 1 ≠ 0)%nat)) by lia.
  replace (length (list_elem self) + 1)%nat with (S (length (list_elem self))) by lia.
  unfold for_xrange in *. rewrite for_range_from_snoc. cbn [Nat.add].
  rewrite (for_range_from_ext _ (lines (list_elem self)));
    [|intros i s' Hi; unfold getitem; by rewrite lookup_app_l by lia].
  set (header := _ +:+ (((tab +:+ " bounds of the box: " +:+ newline) +:+ _) +:+ newline)) in *.
  assert (Hlast : ∀ s', getitem (list_elem self ++ [elem]) (length (list_elem self)) ≫=
                        (λ e, Ok (s' +:+ line (length (list_elem self)) e))
                        = Ok (s' +:+ line (length (list_elem self)) elem)).
  { intros s'. rewrite (getitem_Some _ _ elem); [done|]. by rewrite list_lookup_middle. }
  destruct (decide (list_elem self = [])) as [Hnil|Hne].
  - rewrite Hnil in *. cbn [length] in *.
    rewrite decide_False in Hs by lia. injection Hs as <-.
    cbn [for_range_from]. res_step. cbn [app length] in Hlast.
    rewrite Hlast. by rewrite string_app_assoc.
  - assert (Hlen : (length (list_elem self) ≠ 0)%nat) by (by destruct (list_elem self)).
    rewrite decide_True in Hs by done. rewrite Hs. res_step. by rewrite Hlast.
Qed.

End StrFacts.

(** ** When the constructor succeeds *)

(** X11. The constructor succeeds without logging anything whenever the box
    has the key ['x'], every interval it reads has exactly two entries,
    floats or ints within the range of binary64 (whatever their order), the
    label is absent, an int of the 32-bit range (so an [int] and not a
    [long] on every platform) or a list of exactly [2*dim] integers, and the
    topology gives one split factor and one coordinate per axis. The
    geometry has the dimension and the global bounds of the box, and
    [Interface] is called once. *)
Theorem well_formed_box_is_built {Comm : Type} (COMM_WORLD : Comm) (PROC_NULL : Z)
    (Interface_init : nat → list bool → Comm → Interface)
    (dico : Dico Comm) (box : Box) (rows : list (list PyNum)) :
  key_box dico = Some box →
  declared_bounds box = Some rows →
  Forall (λ row, length row = 2%nat) rows →
  Forall (Forall (λ x, fits_f8 x = true)) rows →
  (key_label box = None ∨
   (∃ z, key_label box = Some (LabInt z) ∧ - 2 ^ 31 ≤ z < 2 ^ 31) ∨
   ∃ l, key_label box = Some (LabList l) ∧ length l = (2 * length rows)%nat) →
  (∀ period,
     let itf := Interface_init (length rows) period (dict_get (key_comm dico) COMM_WORLD) in
     length (split itf) = length rows ∧ length (get_coords itf) = length rows) →
  ∃ period g,
    Geometry_init COMM_WORLD PROC_NULL Interface_init dico
    = ([NewInterface (length rows) period], Ok g) ∧
    dim g = length rows ∧ globalbounds g = map (map to_f8) rows ∧
    length (box_label g) = (2 * length rows)%nat.
Proof.
  intros Hbox Hrows Hpairs Hfit Hlabel Htopo.
  assert (Hgb : get_box dico = ([], Ok (length rows, map (map to_f8) rows))).
  { rewrite get_box_eval, Hbox, Hrows, (np_asarray_f8_same_length rows 2 Hpairs Hfit). done. }
  assert (Hinit : ∃ lab0, initial_box_label (length rows)
                            (dict_get (key_label box) (LabInt (-1))) = ([], Ok (Some lab0)) ∧
                          length lab0 = (2 * length rows)%nat).
  { destruct Hlabel as [->|[(z & -> & _)|(l & -> & Hl)]]; simpl.
    - eexists. split; [done|]. by rewrite length_replicate.
    - eexists. split; [done|]. by rewrite length_replicate.
    - exists l. split; [|done]. rewrite decide_False; [done|]. intros Hn. by apply Hn. }
  destruct Hinit as (lab0 & Hinit & Hlen).
  pose proof (Geometry_init_eval COMM_WORLD PROC_NULL Interface_init
                dico _ _ _ _ _ _ Hgb Hbox Hinit) as Hrun.
  destruct (periodicity_total lab0 (length rows)) as [period Hper]; [lia|].
  rewrite Hper in Hrun. cbv zeta in Hrun.
  destruct (Htopo period) as [Hsplit Hcoords].
  set (itf := Interface_init (length rows) period (dict_get (key_comm dico) COMM_WORLD)) in *.
  destruct (split_bounds_rows (map (map to_f8) rows) (split itf) (get_coords itf))
    as (b & Hsb & _); [|by rewrite length_map..|].
  { apply Forall_fmap. eapply Forall_impl; [exact Hpairs|].
    intros row Hrow. simpl in *. rewrite length_map. lia. }
  destruct (interface_loop_total PROC_NULL itf (length rows) 0 lab0 ltac:(lia)) as [lab1 Hil].
  rewrite Hsb in Hrun. unfold interface_labels, for_xrange in Hrun. rewrite Hil in Hrun.
  eexists period, _. split; [exact Hrun|]. cbn [dim globalbounds box_label].
  split_and!; [done..|].
  apply interface_loop_Ok in Hil as (-> & _). done.
Qed.

Lemma well_formed_box_is_built_witness :
  let box := {| key_x := Some [PyInt 0; PyInt 2]; key_y := Some [PyFloat 0; PyInt 1];
                key_z := None; key_label := Some (LabList [1; 2; 3; 4]) |} in
  let rows := [[PyInt 0; PyInt 2]; [PyFloat 0; PyInt 1]] in
  ∃ period g,
    Geometry_init () a_PROC_NULL two_along_x (box_only box)
    = ([NewInterface (length rows) period], Ok g) ∧
    dim g = length rows ∧ globalbounds g = map (map to_f8) rows ∧
    length (box_label g) = (2 * length rows)%nat.
Proof.
  intros box rows.
  apply (well_formed_box_is_built () a_PROC_NULL two_along_x (box_only box) box rows);
    [reflexivity | reflexivity | repeat constructor | repeat constructor
    | right; right; exists [1; 2; 3; 4]; split; reflexivity
    | intros period; split; reflexivity].
Defined.

Lemma initial_box_label_Ok (d : nat) (dummylab : LabelVal) :
  ∃ tr1 ol, initial_box_label d dummylab = (tr1, Ok ol).
Proof.
  destruct dummylab as [| z | s | l]; simpl; eauto.
  case_decide; eauto.
Qed.

(** X12. An error of the dictionary is the same for every process: when the
    constructor raises before it has called [Interface] (a missing key,
    intervals of different lengths, a label of the wrong type, a label list
    that is too short), it raises the same exception, after the same
    messages, whatever the communicator and the topology. *)
Theorem early_failure_is_common {Comm : Type} (dico : Dico Comm)
    (COMM_WORLD COMM_WORLD' : Comm) (PROC_NULL PROC_NULL' : Z)
    (Interface_init Interface_init' : nat → list bool → Comm → Interface) tr e :
  Geometry_init COMM_WORLD PROC_NULL Interface_init dico = (tr, Raise e) →
  (∀ d period, NewInterface d period ∉ tr) →
  Geometry_init COMM_WORLD' PROC_NULL' Interface_init' dico = (tr, Raise e).
Proof.
  intros Hrun Hno.
  destruct (get_box dico) as [tr0 [[d gb]|e0]] eqn:Hgb.
  - destruct (get_box_Ok _ _ _ _ Hgb) as (-> & box & rows & Hbox & Hrows & -> & _).
    pose proof (declared_bounds_length _ _ Hrows) as Hd.
    destruct (initial_box_label_Ok (length rows) (dict_get (key_label box) (LabInt (-1))))
      as (tr1 & [lab0|] & Hinit).
    + rewrite (Geometry_init_eval COMM_WORLD PROC_NULL Interface_init
                 _ _ _ _ _ _ _ Hgb Hbox Hinit) in Hrun.
      rewrite (Geometry_init_eval COMM_WORLD' PROC_NULL' Interface_init'
                 _ _ _ _ _ _ _ Hgb Hbox Hinit).
      destruct (periodicity (length rows) (Some lab0)) as [period|e'].
      * exfalso. cbv zeta in Hrun. injection Hrun as <- _.
        apply (Hno (length rows) period). rewrite !elem_of_app, list_elem_of_singleton. auto.
      * exact Hrun.
    + assert (Hfail : ∀ (W : Comm) P I,
                Geometry_init W P I dico = ([] ++ tr1, Raise AttributeError)).
      { intros W P I. unfold Geometry_init.
        rewrite (M_bind_eval _ _ _ _ Hgb). cbv beta iota.
        rewrite (M_bind_lift_Ok _ _ box) by (by apply dict_getitem_Ok).
        rewrite (M_bind_eval _ _ _ _ Hinit).
        rewrite (M_bind_lift_Raise _ _ AttributeError) by (apply periodicity_unset; lia).
        simpl. by rewrite app_nil_r. }
      rewrite Hfail in Hrun. rewrite Hfail. exact Hrun.
  - unfold Geometry_init in *.
    rewrite (M_bind_raise _ _ _ _ Hgb) in Hrun. rewrite (M_bind_raise _ _ _ _ Hgb).
    exact Hrun.
Qed.

Lemma early_failure_is_common_witness :
  let box := {| key_x := Some [PyInt 0; PyInt 2]; key_y := Some [PyInt 0; PyInt 1];
                key_z := None; key_label := Some (LabList [1; 2; 3]) |} in
  Geometry_init () a_PROC_NULL single_process (box_only box)
  = ([LogError msg_label_size], Raise IndexError) ∧
  Geometry_init () a_PROC_NULL two_along_x (box_only box)
  = ([LogError msg_label_size], Raise IndexError).
Proof.
  intros box.
  assert (Hrun : Geometry_init () a_PROC_NULL single_process (box_only box)
                 = ([LogError msg_label_size], Raise IndexError)) by reflexivity.
  split; [exact Hrun|].
  apply (early_failure_is_common (box_only box) () () a_PROC_NULL a_PROC_NULL
           single_process two_along_x _ _ Hrun).
  intros d period Hin. apply list_elem_of_singleton in Hin. discriminate Hin.
Defined.

(** ** Faces, neighbours and labels of a built geometry *)

(** X13. In a geometry that the constructor returns, the label of a face is
    decided by the declared label and the neighbours alone: for every axis
    [d], the low face carries [-2] if the process has a neighbour below
    along [d] and the label read from the dictionary otherwise, and likewise
    the high face with the neighbour above. In particular an axis found
    periodic (both declared labels [-1]) keeps [-1] on each face without
    neighbour. *)
Theorem face_labels_of_built_geometry {Comm : Type} (COMM_WORLD : Comm) (PROC_NULL : Z)
    (Interface_init : nat → list bool → Comm → Interface) (dico : Dico Comm) tr g :
  Geometry_init COMM_WORLD PROC_NULL Interface_init dico = (tr, Ok g) →
  ∃ box tr1 lab0,
    key_box dico = Some box ∧
    initial_box_label (dim g) (dict_get (key_label box) (LabInt (-1))) = (tr1, Ok (Some lab0)) ∧
    ∀ d, (d < dim g)%nat →
      box_label g !! (2 * d)%nat
      = (if bool_decide ((cartcomm_Shift (interface g) d).1 ≠ PROC_NULL)
         then Some (-2) else lab0 !! (2 * d)%nat) ∧
      box_label g !! (2 * d + 1)%nat
      = (if bool_decide ((cartcomm_Shift (interface g) d).2 ≠ PROC_NULL)
         then Some (-2) else lab0 !! (2 * d + 1)%nat) ∧
      is_Some (lab0 !! (2 * d)%nat) ∧ is_Some (lab0 !! (2 * d + 1)%nat).
Proof.
  intros (tr0 & box & tr1 & lab0 & period & _ & Hbox & Hlab & Hper & _ & _ & Hil & _)
    %Geometry_init_Ok.
  exists box, tr1, lab0. split_and!; [done..|].
  unfold interface_labels, for_xrange in Hil.
  apply interface_loop_Ok in Hil as (_ & B1 & B0 & A1 & A0 & _).
  unfold periodicity, for_xrange in Hper. apply periodicity_loop_Ok in Hper as (Hlen & _).
  intros d Hd. specialize (Hlen ltac:(lia)). split_and!.
  - case_bool_decide; [apply B1|apply B0]; (lia || done).
  - case_bool_decide; [apply A1|apply A0]; (lia || done).
  - apply lookup_lt_is_Some_2. lia.
  - apply lookup_lt_is_Some_2. lia.
Qed.

Lemma face_labels_of_built_geometry_witness :
  let box := {| key_x := Some [PyInt 0; PyInt 2]; key_y := Some [PyInt 0; PyInt 1];
                key_z := None; key_label := None |} in
  ∃ g, Geometry_init () a_PROC_NULL two_along_x (box_only box)
       = ([NewInterface 2 [true; true]], Ok g) ∧
       box_label g = [-1; -2; -1; -1] ∧
  ∃ box' tr1 lab0,
    key_box (box_only box) = Some box' ∧
    initial_box_label (dim g) (dict_get (key_label box') (LabInt (-1))) = (tr1, Ok (Some lab0)) ∧
    ∀ d, (d < dim g)%nat →
      box_label g !! (2 * d)%nat
      = (if bool_decide ((cartcomm_Shift (interface g) d).1 ≠ a_PROC_NULL)
         then Some (-2) else lab0 !! (2 * d)%nat) ∧
      box_label g !! (2 * d + 1)%nat
      = (if bool_decide ((cartcomm_Shift (interface g) d).2 ≠ a_PROC_NULL)
         then Some (-2) else lab0 !! (2 * d + 1)%nat) ∧
      is_Some (lab0 !! (2 * d)%nat) ∧ is_Some (lab0 !! (2 * d + 1)%nat).
Proof.
  intros box.
  assert (Hrun : ∃ g, Geometry_init () a_PROC_NULL two_along_x (box_only box)
                      = ([NewInterface 2 [true; true]], Ok g) ∧
                      box_label g = [-1; -2; -1; -1])
    by (eexists; split; [vm_compute; reflexivity | reflexivity]).
  destruct Hrun as (g & Hrun & Hlab). exists g. split; [exact Hrun|]. split; [exact Hlab|].
  exact (face_labels_of_built_geometry () a_PROC_NULL two_along_x (box_only box) _ g Hrun).
Defined.


